(** * backtest_btc_15m: trigger detection, settlement and the backtest loop

    A shallow embedding of [backtest_btc_15m.py].

    Numbers.  Python floats (tick probabilities, settlement prices, PnL) are
    embedded as rationals [Q]: every finite double is a rational and the
    comparisons [>=], [<], [>] of the program are the order of [Q] on them.
    The payoff [1 - p - FEE], [-(p + FEE)] is embedded twice: [pnl_of] reads
    it in exact arithmetic, [pnl_of_b64] evaluates it as the program does,
    every operation rounded to binary64 by [b64]; the two differ by at most
    [2^-53] on prices and fees in [0, 1].  The sums and quotients of the
    summary are exact.  Timestamps are Python integers, embedded as [Z].

    Exceptions.  Code that can raise returns a [result]; [try/except] is a
    match on it.

    Collaborators.  The HTTP price-history call and the ISO-8601 parser of the
    Python library are parameters of the development. *)

From Stdlib Require Import ZArith QArith Qround Qabs Qpower List Ascii String Bool
  Lia Lqa Sorted.
From Stdlib Require Uint63 PrimFloat FloatOps SpecFloat.
Import ListNotations.

Local Open Scope Z_scope.

(** ** Exceptions *)

Inductive exn : Type :=
| KeyError
| ValueError
| IndexError
| ZeroDivisionError
| HTTPError.

Inductive result (A : Type) : Type :=
| Ok (a : A)
| Raise (e : exn).

Arguments Ok {A} a.
Arguments Raise {A} e.

Definition bind {A B : Type} (c : result A) (k : A -> result B) : result B :=
  match c with
  | Ok a => k a
  | Raise e => Raise e
  end.

Notation "x <- c ;; k" := (bind c (fun x => k))
  (at level 61, c at next level, right associativity).

Fixpoint mapM {A B : Type} (f : A -> result B) (l : list A) : result (list B) :=
  match l with
  | [] => Ok []
  | a :: rest =>
      b <- f a ;;
      bs <- mapM f rest ;;
      Ok (b :: bs)
  end.

(** [l[i]] on a Python list, for [i >= 0]. *)
Definition index {A : Type} (l : list A) (i : nat) : result A :=
  match nth_error l i with
  | Some a => Ok a
  | None => Raise IndexError
  end.

(** ** Numbers *)

Definition Qltb (x y : Q) : bool := negb (Qle_bool y x).

(** [a / b] on Python numbers. *)
Definition py_div (a b : Q) : result Q :=
  if Qeq_bool b 0 then Raise ZeroDivisionError else Ok (a / b)%Q.

(** Rounding to the nearest integer, ties to the even one. *)
Definition round_half_even (x : Q) : Z :=
  let f := Qfloor x in
  match ((x - inject_Z f) ?= (1 # 2))%Q with
  | Lt => f
  | Gt => f + 1
  | Eq => if Z.even f then f else f + 1
  end.

(** [round(x, ndigits)]. *)
Definition py_round (x : Q) (ndigits : nat) : Q :=
  let s := inject_Z (10 ^ Z.of_nat ndigits) in
  (inject_Z (round_half_even (x * s)) / s)%Q.

Definition sumQ (l : list Q) : Q := fold_left Qplus l 0%Q.
Definition sumZ (l : list Z) : Z := fold_left Z.add l 0.

(** ** Binary64

    [b64 x] is the binary64 number nearest to the rational [x], ties to the
    even significand: 53 significant bits, and a quantum of at least
    [2^-1074] (subnormal numbers).  The operations [+] and [-] on Python
    floats are correctly rounded, so their result is [b64] of the exact
    result, as long as it stays below the overflow threshold
    [2^1024 - 2^970]. *)

Definition pow2 (e : Z) : Q := (2 ^ e)%Q.

(** The integer [e] with [2^e <= x < 2^(e+1)], for [x > 0]. *)
Definition ilog2 (x : Q) : Z :=
  let k := Z.log2 (Qnum x) - Z.log2 (Zpos (Qden x)) in
  if Qle_bool (pow2 k) x then k else k - 1.

(** The exponent of the spacing of the binary64 numbers around [x]. *)
Definition quantum_exp (x : Q) : Z := Z.max (ilog2 (Qabs x) - 52) (-1074).

Definition b64 (x : Q) : Q :=
  let q := pow2 (quantum_exp x) in
  (inject_Z (round_half_even (x / q)) * q)%Q.

(** The greatest finite binary64 number. *)
Definition max_b64 : Q := (inject_Z (2 ^ 53 - 1) * pow2 971)%Q.

(** [a - b] and [a + b] on Python floats. *)
Definition fsub (a b : Q) : Q := b64 (a - b).
Definition fadd (a b : Q) : Q := b64 (a + b).

(** [round(x, ndigits)] on a Python float: the decimal rounding of the exact
    value of [x], read back as a float. *)
Definition py_round_b64 (x : Q) (ndigits : nat) : Q := b64 (py_round x ndigits).

(** ** Data *)

(** A key of a market dict whose value is JSON text: the key can be absent,
    the text can be rejected by [json.loads], or it decodes to a value. *)
Inductive field (A : Type) : Type :=
| Missing
| Malformed
| Value (v : A).

Arguments Missing {A}.
Arguments Malformed {A}.
Arguments Value {A} v.

(** [json.loads(m[key])]. *)
Definition loads_item {A : Type} (f : field (list A)) : result (list A) :=
  match f with
  | Missing => Raise KeyError
  | Malformed => Raise ValueError
  | Value v => Ok v
  end.

(** [json.loads(m.get(key, "[]"))]. *)
Definition loads_get {A : Type} (f : field (list A)) : result (list A) :=
  match f with
  | Missing => Ok []
  | Malformed => Raise ValueError
  | Value v => Ok v
  end.

(** An entry of [outcomePrices]: [Some q] when [float] reads it as [q],
    [None] when [float] rejects it. *)
Definition price_entry : Type := option Q.

Definition float (x : price_entry) : result Q :=
  match x with
  | Some q => Ok q
  | None => Raise ValueError
  end.

Record Market : Type := {
  slug : option string;
  closed : bool;
  clobTokenIds : field (list string);
  outcomes : field (list string);
  outcomePrices : field (list price_entry);
  endDate : option string
}.

(** A point of a price history, [{"t": ..., "p": ...}]. *)
Record Tick : Type := {
  tick_t : Z;
  tick_p : Q
}.

Record Trigger : Type := {
  side : string;
  side_idx : nat;
  price : Q;
  time : Z
}.

Record Trade : Type := {
  trade_slug : string;
  trade_side : string;
  trade_price : Q;
  trade_winner : option string;
  trade_won : bool;
  trade_pnl : Q;
  trade_tte_secs : Z
}.

(** ** resolved_outcome *)

(** [max(range(len(keys)), key=lambda i: keys[i])], on the keys already
    computed: the running best is replaced only by a strictly greater key, so
    the first index of the maximum is returned. *)
Fixpoint max_index_from (best : nat) (bestv : Q) (i : nat) (keys : list Q) : nat :=
  match keys with
  | [] => best
  | v :: rest =>
      if Qltb bestv v then max_index_from i v (S i) rest
      else max_index_from best bestv (S i) rest
  end.

Definition max_index (keys : list Q) : nat :=
  match keys with
  | [] => O
  | v :: rest => max_index_from O v 1%nat rest
  end.

Definition nonempty {A : Type} (l : list A) : bool :=
  match l with
  | [] => false
  | _ :: _ => true
  end.

(** The body of the [try] block; [Ok None] is falling out of it. *)
Definition resolved_outcome_try (m : Market) : result (option string) :=
  outs <- loads_get (outcomes m) ;;
  prices <- loads_get (outcomePrices m) ;;
  if nonempty prices && nonempty outs then
    keys <- mapM float prices ;;
    let i := max_index keys in
    e <- index prices i ;;
    v <- float e ;;
    if Qltb (9 # 10) v then
      o <- index outs i ;;
      Ok (Some o)
    else Ok None
  else Ok None.

Definition resolved_outcome (m : Market) : option string :=
  match resolved_outcome_try m with
  | Ok r => r
  | Raise _ => None
  end.

(** ** iso_to_ts *)

(** [iso.replace("Z", "+00:00")]. *)
Fixpoint replace_Z (iso : string) : string :=
  match iso with
  | EmptyString => EmptyString
  | String c rest =>
      if Ascii.eqb c "Z"%char then ("+00:00" ++ replace_Z rest)%string
      else String c (replace_Z rest)
  end.

(** ** The run log

    What [run] prints per market and what it asks of the price-history
    source, in order. *)
Inductive event : Type :=
| SkipBadJson (slug : string)
| SkipSides (slug : string) (n_tokens : nat)
| Fetch (token : string) (start_ts end_ts : Z)
| Points (slug : string) (n0 n1 : nat)
| NoTrigger
| TradeLine (side : string) (price : Q) (winner : option string) (pnl : Q) (tte : Z).

Record State : Type := {
  trades : list Trade;
  skipped : Z;
  log : list event
}.

Definition init : State := {| trades := []; skipped := 0; log := [] |}.

(** [print(...SKIP...); skipped += 1; continue]. *)
Definition skip (st : State) (e : event) : State :=
  {| trades := trades st; skipped := skipped st + 1; log := log st ++ [e] |}.

Definition emit (st : State) (es : list event) : State :=
  {| trades := trades st; skipped := skipped st; log := log st ++ es |}.

Definition append_trade (st : State) (t : Trade) : State :=
  {| trades := trades st ++ [t]; skipped := skipped st; log := log st |}.

(** The summary block, as the values it prints. *)
Record Report : Type := {
  markets_scanned : nat;
  skipped_bad_data : Z;
  n_trades : nat;
  n_wins : nat;
  win_rate_pct : Q;
  avg_pnl : Q;
  total_pnl : option Q;
  avg_tte : option Q;
  report_trades : list Trade;
  report_log : list event
}.

Section Backtest.

(** The module constants [THRESHOLD] and [FEE]. *)
Variables THRESHOLD FEE : Q.

(** [int(datetime.fromisoformat(s).timestamp())]; [ValueError] when [s] is
    not an ISO-8601 timestamp. *)
Variable fromisoformat : string -> result Z.

(** [prices(token, start, end)], the price-history request. *)
Variable prices : string -> Z -> Z -> result (list Tick).

Definition iso_to_ts (iso : string) : result Z :=
  fromisoformat (replace_Z iso).

(** *** The trigger loops of [run] *)

(** [trigger is None or p["t"] < trigger["time"]]. *)
Definition earlier (p : Tick) (trigger : option Trigger) : bool :=
  match trigger with
  | None => true
  | Some tr => tick_t p <? time tr
  end.

(** [for p in hist: ...], with its [break] at the first tick at or above
    the threshold. *)
Fixpoint scan_hist (outcomes : list string) (idx : nat)
         (trigger : option Trigger) (hist : list Tick) : result (option Trigger) :=
  match hist with
  | [] => Ok trigger
  | p :: rest =>
      if Qle_bool THRESHOLD (tick_p p) then
        if earlier p trigger then
          s <- index outcomes idx ;;
          Ok (Some {| side := s; side_idx := idx;
                      price := tick_p p; time := tick_t p |})
        else Ok trigger
      else scan_hist outcomes idx trigger rest
  end.

(** [for side_idx, hist in enumerate(hists): ...]. *)
Fixpoint scan_sides (outcomes : list string) (idx : nat)
         (trigger : option Trigger) (hists : list (list Tick)) : result (option Trigger) :=
  match hists with
  | [] => Ok trigger
  | hist :: rest =>
      trigger' <- scan_hist outcomes idx trigger hist ;;
      scan_sides outcomes (S idx) trigger' rest
  end.

Definition find_trigger (outcomes : list string) (hists : list (list Tick))
  : result (option Trigger) :=
  scan_sides outcomes O None hists.

(** *** Settlement *)

(** [trigger["side"] == winner]; [winner] is [None] when unresolved. *)
Definition won_of (tr : Trigger) (winner : option string) : bool :=
  match winner with
  | Some w => String.eqb (side tr) w
  | None => false
  end.

(** [(1 - price - FEE) if won else -(price + FEE)], read in exact arithmetic;
    [pnl_of_b64] below evaluates it in binary64. *)
Definition pnl_of (won : bool) (p : Q) : Q :=
  (if won then 1 - p - FEE else - (p + FEE))%Q.

Definition make_trade (slug : string) (tr : Trigger) (winner : option string)
           (end_ts : Z) : Trade :=
  let won := won_of tr winner in
  let pnl := pnl_of won (price tr) in
  {| trade_slug := slug;
     trade_side := side tr;
     trade_price := py_round (price tr) 4;
     trade_winner := winner;
     trade_won := won;
     trade_pnl := py_round pnl 4;
     trade_tte_secs := end_ts - time tr |}.

(** *** The loop body of [run] *)

Definition get_slug (m : Market) : string :=
  match slug m with
  | Some s => s
  | None => "?"%string
  end.

(** [m["endDate"]]. *)
Definition get_endDate (m : Market) : result string :=
  match endDate m with
  | Some s => Ok s
  | None => Raise KeyError
  end.

(** The first [try] block. *)
Definition parse_sides (m : Market) : result (list string * list string) :=
  token_ids <- loads_item (clobTokenIds m) ;;
  outs <- loads_item (outcomes m) ;;
  Ok (token_ids, outs).

Definition wrong_sides (token_ids outs : list string) : bool :=
  negb (Nat.eqb (List.length token_ids) 2) || negb (Nat.eqb (List.length outs) 2).

Definition process_market (st : State) (m : Market) : result State :=
  let slug := get_slug m in
  match parse_sides m with
  | Raise _ => Ok (skip st (SkipBadJson slug))
  | Ok (token_ids, outs) =>
      if wrong_sides token_ids outs then
        Ok (skip st (SkipSides slug (List.length token_ids)))
      else
        iso <- get_endDate m ;;
        end_ts <- iso_to_ts iso ;;
        let start_ts := end_ts - 900 in
        hists <- mapM (fun tid => prices tid start_ts end_ts) token_ids ;;
        let st1 := emit st (map (fun tid => Fetch tid start_ts end_ts) token_ids) in
        h0 <- index hists 0 ;;
        h1 <- index hists 1 ;;
        let st2 := emit st1 [Points slug (List.length h0) (List.length h1)] in
        trigger <- find_trigger outs hists ;;
        match trigger with
        | None => Ok (emit st2 [NoTrigger])
        | Some tr =>
            let winner := resolved_outcome m in
            let t := make_trade slug tr winner end_ts in
            let won := won_of tr winner in
            let pnl := pnl_of won (price tr) in
            let st3 := emit st2 [TradeLine (side tr) (price tr) winner pnl
                                           (end_ts - time tr)] in
            Ok (append_trade st3 t)
        end
  end.

(** [for m in closed: ...]. *)
Fixpoint run_loop (st : State) (ms : list Market) : result State :=
  match ms with
  | [] => Ok st
  | m :: rest =>
      st' <- process_market st m ;;
      run_loop st' rest
  end.

(** *** The summary *)

(** [t["pnl"] > 0]. *)
Definition is_win (t : Trade) : bool := Qltb 0 (trade_pnl t).

Definition summary (n_closed : nat) (st : State) : result Report :=
  let wins := filter is_win (trades st) in
  let n := List.length (trades st) in
  let denom := inject_Z (Z.max 1 (Z.of_nat n)) in
  frac <- py_div (inject_Z (Z.of_nat (List.length wins))) denom ;;
  avg <- py_div (sumQ (map trade_pnl (trades st))) denom ;;
  rest <- (if nonempty (trades st) then
             let ttes := map trade_tte_secs (trades st) in
             a <- py_div (inject_Z (sumZ ttes)) (inject_Z (Z.of_nat (List.length ttes))) ;;
             Ok (Some (sumQ (map trade_pnl (trades st))), Some a)
           else Ok (None, None)) ;;
  Ok {| markets_scanned := n_closed;
        skipped_bad_data := skipped st;
        n_trades := n;
        n_wins := List.length wins;
        win_rate_pct := (frac * 100)%Q;
        avg_pnl := avg;
        total_pnl := fst rest;
        avg_tte := snd rest;
        report_trades := trades st;
        report_log := log st |}.

(** [run], given what [fetch_btc15m_markets()] returned.  [Ok None] is the
    early return when no market was found. *)
Definition run (mkts : list Market) : result (option Report) :=
  if nonempty mkts then
    let closed_mkts := filter closed mkts in
    st <- run_loop init closed_mkts ;;
    r <- summary (List.length closed_mkts) st ;;
    Ok (Some r)
  else Ok None.

End Backtest.

(** The values of the module constants in the source. *)
Module Config.
Definition THRESHOLD : Q := 97 # 100.
Definition FEE : Q := 2 # 100.
End Config.

(** ** The payoff as the program evaluates it *)

(** [(1 - price - FEE) if won else -(price + FEE)] on floats: [1 - price] is
    rounded, then the difference with [FEE] is rounded; [price + FEE] is
    rounded and its sign changed. *)
Definition pnl_of_b64 (FEE : Q) (won : bool) (p : Q) : Q :=
  if won then fsub (fsub 1 p) FEE else (- fadd p FEE)%Q.

(** The trade record of [run], with the payoff and the two [round] calls
    evaluated on floats. *)
Definition make_trade_b64 (FEE : Q) (slug : string) (tr : Trigger)
           (winner : option string) (end_ts : Z) : Trade :=
  let won := won_of tr winner in
  let pnl := pnl_of_b64 FEE won (price tr) in
  {| trade_slug := slug;
     trade_side := side tr;
     trade_price := py_round_b64 (price tr) 4;
     trade_winner := winner;
     trade_won := won;
     trade_pnl := py_round_b64 pnl 4;
     trade_tte_secs := end_ts - time tr |}.

(** ** fetch_btc15m_markets *)

Definition SLUG_PREFIX : string := "btc-updown-15m-".

(** [(m.get("slug") or "").startswith(SLUG_PREFIX)]. *)
Definition is_hit (m : Market) : bool :=
  String.prefix SLUG_PREFIX
                (match slug m with
                 | Some s => s
                 | None => EmptyString
                 end).

(** What the discovery returns, with the offsets it asked the listing for,
    in order. *)
Record Scan : Type := {
  found : list Market;
  requested : list Z
}.

Section Discovery.

(** The listing request: the decoded batch for [limit] and [offset], or the
    error of [raise_for_status]. *)
Variable get_markets : Z -> Z -> result (list Market).

(** [for page in range(max_pages): ...], on the pages still to visit. *)
Fixpoint fetch_pages (pages : nat) (page_size : Z) (acc : list Market)
         (offset empty_pages : Z) (asked : list Z) : result Scan :=
  match pages with
  | O => Ok {| found := acc; requested := asked |}
  | S rest =>
      batch <- get_markets page_size offset ;;
      let asked' := asked ++ [offset] in
      if nonempty batch then
        let hits := filter is_hit batch in
        let acc' := acc ++ hits in
        if nonempty hits then
          fetch_pages rest page_size acc' (offset + page_size) 0 asked'
        else
          let empty_pages' := empty_pages + 1 in
          if nonempty acc' && (3 <=? empty_pages') then
            Ok {| found := acc'; requested := asked' |}
          else
            fetch_pages rest page_size acc' (offset + page_size) empty_pages' asked'
      else Ok {| found := acc; requested := asked' |}
  end.

Definition fetch_btc15m_markets (max_pages page_size : Z) : result Scan :=
  fetch_pages (Z.to_nat max_pages) page_size [] 0 0 [].

End Discovery.

(** [run()] as the source has it, the discovery with its default arguments
    included. *)
Definition run_all (THRESHOLD FEE : Q) (fromisoformat : string -> result Z)
           (prices : string -> Z -> Z -> result (list Tick))
           (get_markets : Z -> Z -> result (list Market)) : result (option Report) :=
  scan <- fetch_btc15m_markets get_markets 50 200 ;;
  run THRESHOLD FEE fromisoformat prices (found scan).

(** * Vocabulary of the properties *)

(** A tick qualifies when its probability is at or above the threshold. *)
Definition qualifies (T : Q) (p : Tick) : bool := Qle_bool T (tick_p p).

(** The first qualifying tick of one side, if any. *)
Definition first_hit (T : Q) (hist : list Tick) : option Tick :=
  find (qualifies T) hist.

Definition trigger_at (label : string) (idx : nat) (p : Tick) : Trigger :=
  {| side := label; side_idx := idx; price := tick_p p; time := tick_t p |}.

(** The two-step reading of the detector: the first qualifying tick of each
    side, then the earlier of the two, the second side winning only with a
    strictly smaller time. *)
Definition select_trigger (T : Q) (a b : string) (h0 h1 : list Tick) : option Trigger :=
  match first_hit T h0, first_hit T h1 with
  | None, None => None
  | Some p0, None => Some (trigger_at a 0 p0)
  | None, Some p1 => Some (trigger_at b 1 p1)
  | Some p0, Some p1 =>
      if tick_t p1 <? tick_t p0 then Some (trigger_at b 1 p1)
      else Some (trigger_at a 0 p0)
  end.

(** [v] is the maximum of [keys] and [i] is the first index holding it. *)
Definition is_first_max (keys : list Q) (i : nat) (v : Q) : Prop :=
  nth_error keys i = Some v /\
  (forall (j : nat) (w : Q), nth_error keys j = Some w -> (w <= v)%Q) /\
  (forall (j : nat) (w : Q), (j < i)%nat -> nth_error keys j = Some w -> (w < v)%Q).

(** The sentence of the specification on the winner, read on a market whose
    label sequence decodes to [outs] and whose prices are the numbers [keys]:
    the label at the index of the maximum price is returned exactly when that
    maximum exceeds 0.9. *)
Definition label_at_max_iff_above (m : Market) (outs : list string) (keys : list Q) : Prop :=
  forall (i : nat) (v : Q),
    is_first_max keys i v ->
    (((9 # 10) < v)%Q <->
     exists l, nth_error outs i = Some l /\ resolved_outcome m = Some l).

Definition count_denominator (st : State) : Q :=
  inject_Z (Z.max 1 (Z.of_nat (List.length (trades st)))).

(** The ticks of one side come in ascending time. *)
Definition time_sorted (hist : list Tick) : Prop :=
  StronglySorted (fun p q => tick_t p <= tick_t q) hist.

(** The hits of the batch the listing returns at [offset]. *)
Definition hits_at (get_markets : Z -> Z -> result (list Market))
           (page_size offset : Z) : list Market :=
  match get_markets page_size offset with
  | Ok batch => filter is_hit batch
  | Raise _ => []
  end.

(** The offsets of [n] pages in a row, the first at [offset]. *)
Definition offsets_from (offset page_size : Z) (n : nat) : list Z :=
  map (fun i => offset + Z.of_nat i * page_size) (seq 0 n).

(** The offsets of the first [n] pages: 0, [page_size], 2 [page_size], ... *)
Definition page_offsets (page_size : Z) (n : nat) : list Z :=
  offsets_from 0 page_size n.

(** What one state adds to another: trades and log lines appended, skip
    counters added. *)
Definition merge (st d : State) : State :=
  {| trades := trades st ++ trades d;
     skipped := skipped st + skipped d;
     log := log st ++ log d |}.

Definition is_no_trigger (e : event) : bool :=
  match e with
  | NoTrigger => true
  | _ => false
  end.

Definition is_fetch (e : event) : bool :=
  match e with
  | Fetch _ _ _ => true
  | _ => false
  end.

(** A price request spans 900 seconds. *)
Definition fetch_window_ok (e : event) : Prop :=
  match e with
  | Fetch _ start_ts end_ts => end_ts - start_ts = 900
  | _ => True
  end.

(** A printed trade line entered at or above the threshold and carries the
    payoff of its price. *)
Definition trade_line_ok (T F : Q) (e : event) : Prop :=
  match e with
  | TradeLine s p winner pnl _ =>
      (T <= p)%Q /\
      pnl = pnl_of F (match winner with
                      | Some w => String.eqb s w
                      | None => false
                      end) p /\
      (pnl <= 1 - T - F)%Q
  | _ => True
  end.

Definition is_trade_line (e : event) : bool :=
  match e with
  | TradeLine _ _ _ _ _ => true
  | _ => false
  end.

Definition count {A : Type} (f : A -> bool) (l : list A) : nat :=
  List.length (filter f l).

(** A trade record was built from a trigger at or above the threshold. *)
Definition trade_ok (T F : Q) (t : Trade) : Prop :=
  exists (s : string) (tr : Trigger) (end_ts : Z),
    t = make_trade F s tr (trade_winner t) end_ts /\ (T <= price tr)%Q.

(** The books of the loop after [n] markets. *)
Record balanced (T F : Q) (n : nat) (st : State) : Prop := {
  bal_count :
    skipped st + Z.of_nat (List.length (trades st))
    + Z.of_nat (count is_no_trigger (log st)) = Z.of_nat n;
  bal_skipped : 0 <= skipped st;
  bal_fetch : Z.of_nat (count is_fetch (log st)) = 2 * (Z.of_nat n - skipped st);
  bal_window : Forall fetch_window_ok (log st);
  bal_lines : Forall (trade_line_ok T F) (log st);
  bal_trade_lines : count is_trade_line (log st) = List.length (trades st);
  bal_trades : Forall (trade_ok T F) (trades st)
}.

(** Rounding to the nearest multiple of a step [q], ties to the even
    multiple. *)
Definition round_to (q x : Q) : Q := (inject_Z (round_half_even (x / q)) * q)%Q.

(** [x] is a binary64 number. *)
Definition is_b64 (x : Q) : Prop := (b64 x == x)%Q.


(** A winning trade entered at [p >= 1 - FEE], the comparison and the
    payoff evaluated as the program evaluates them, has a payoff of at most
    0. *)
Definition breakeven_pnl_nonpositive (F : Q) : Prop :=
  forall p : Q,
    is_b64 p -> (fsub 1 F <= p)%Q -> (pnl_of_b64 F true p <= 0)%Q.

(** * Example data

    A market of the kind the program reads, with its two price histories, and
    stand-ins for the two collaborators that agree with them on the values
    used below. *)

Definition up_hist : list Tick :=
  [ {| tick_t := 1704067290; tick_p := 95 # 100 |};
    {| tick_t := 1704067350; tick_p := 99 # 100 |};
    {| tick_t := 1704067360; tick_p := 995 # 1000 |} ].

Definition down_hist : list Tick :=
  [ {| tick_t := 1704067300; tick_p := 975 # 1000 |};
    {| tick_t := 1704067320; tick_p := 98 # 100 |} ].

Definition tie_hist : list Tick :=
  [ {| tick_t := 1704067350; tick_p := 97 # 100 |} ].

Definition quiet_hist : list Tick :=
  [ {| tick_t := 1704067210; tick_p := 50 # 100 |};
    {| tick_t := 1704067220; tick_p := 9699 # 10000 |} ].

Definition prices_table (token : string) (start_ts end_ts : Z) : result (list Tick) :=
  if String.eqb token "tok-up" then Ok up_hist
  else if String.eqb token "tok-down" then Ok down_hist
  else Ok [].

Definition fromisoformat_table (s : string) : result Z :=
  if String.eqb s "2024-01-01T00:15:00+00:00" then Ok 1704068100
  else Raise ValueError.

Definition market_ok : Market :=
  {| slug := Some "btc-updown-15m-1704067200"%string;
     closed := true;
     clobTokenIds := Value ["tok-up"; "tok-down"]%string;
     outcomes := Value ["Up"; "Down"]%string;
     outcomePrices := Value [Some (98 # 100); Some (2 # 100)];
     endDate := Some "2024-01-01T00:15:00Z"%string |}.

Definition market_bad_date : Market :=
  {| slug := Some "btc-updown-15m-1704068100"%string;
     closed := true;
     clobTokenIds := Value ["tok-up"; "tok-down"]%string;
     outcomes := Value ["Up"; "Down"]%string;
     outcomePrices := Value [Some (98 # 100); Some (2 # 100)];
     endDate := Some "not-a-date"%string |}.

Definition market_three_sides : Market :=
  {| slug := Some "btc-updown-15m-1704069000"%string;
     closed := true;
     clobTokenIds := Value ["tok-up"; "tok-down"; "tok-flat"]%string;
     outcomes := Value ["Up"; "Down"]%string;
     outcomePrices := Value [Some (98 # 100); Some (2 # 100)];
     endDate := Some "2024-01-01T00:15:00Z"%string |}.

Definition market_extra_price : Market :=
  {| slug := Some "btc-updown-15m-1704069900"%string;
     closed := true;
     clobTokenIds := Value ["tok-up"; "tok-down"]%string;
     outcomes := Value ["Up"; "Down"]%string;
     outcomePrices := Value [Some (1 # 100); Some (1 # 100); Some (98 # 100)];
     endDate := Some "2024-01-01T00:15:00Z"%string |}.

Definition down_trigger : Trigger :=
  {| side := "Down"%string; side_idx := 1;
     price := 975 # 1000; time := 1704067300 |}.

Definition late_up_trigger : Trigger :=
  {| side := "Up"%string; side_idx := 0;
     price := 99 # 100; time := 1704067350 |}.

Definition down_first : Tick := {| tick_t := 1704067300; tick_p := 975 # 1000 |}.

Definition up_first : Tick := {| tick_t := 1704067350; tick_p := 99 # 100 |}.

Definition tie_first : Tick := {| tick_t := 1704067350; tick_p := 97 # 100 |}.

Definition market_other : Market :=
  {| slug := Some "eth-updown-15m-1704067200"%string;
     closed := true;
     clobTokenIds := Value ["tok-a"; "tok-b"]%string;
     outcomes := Value ["Up"; "Down"]%string;
     outcomePrices := Value [Some (1 # 1); Some (0 # 1)];
     endDate := Some "2024-01-01T00:15:00Z"%string |}.

Definition market_open : Market :=
  {| slug := Some "btc-updown-15m-1704070800"%string;
     closed := false;
     clobTokenIds := Value ["tok-up"; "tok-down"]%string;
     outcomes := Value ["Up"; "Down"]%string;
     outcomePrices := Missing;
     endDate := Some "2024-01-01T00:15:00Z"%string |}.

Definition market_no_tokens : Market :=
  {| slug := None;
     closed := true;
     clobTokenIds := Malformed;
     outcomes := Value ["Up"; "Down"]%string;
     outcomePrices := Missing;
     endDate := None |}.

(** A listing with hits on its first page only, four hitless pages after it
    and a hit again further on. *)
Definition listing_table (limit offset : Z) : result (list Market) :=
  if offset =? 0 then Ok [market_ok; market_other; market_ok]
  else if offset <? 1000 then Ok [market_other]
  else Ok [market_ok].

(** A listing that ends after its first page. *)
Definition listing_short (limit offset : Z) : result (list Market) :=
  if offset =? 0 then Ok [market_other; market_ok] else Ok [].

(** A listing without any hit. *)
Definition listing_others (limit offset : Z) : result (list Market) :=
  Ok [market_other].

(** A price source whose second token fails. *)
Definition prices_failing (token : string) (start_ts end_ts : Z) : result (list Tick) :=
  if String.eqb token "tok-up" then Ok up_hist else Raise HTTPError.

(** One side out of time order: its first tick at the threshold is not its
    earliest. *)
Definition unsorted_hist : list Tick :=
  [ {| tick_t := 1704067400; tick_p := 98 # 100 |};
    {| tick_t := 1704067250; tick_p := 99 # 100 |} ].

Definition listing_empty (limit offset : Z) : result (list Market) := Ok [].

Definition markets_mixed : list Market :=
  [market_ok; market_three_sides; market_open; market_no_tokens].

Definition scan_table : Scan :=
  {| found := [market_ok; market_ok]; requested := [0; 200; 400; 600] |}.

Definition scan_short : Scan :=
  {| found := [market_ok]; requested := [0; 200] |}.

Definition state_one_trade : State :=
  append_trade init (make_trade Config.FEE "m" late_up_trigger
                                (Some "Up"%string) 1704068100).

(** The doubles that the literals 0.02, 0.97, 0.98 and 1e-20 denote, and the
    double next above 0.98. *)
Definition fee_002 : Q := b64 Config.FEE.


Definition price_098 : Q := b64 (98 # 100).

Definition price_098_next : Q := (price_098 + pow2 (-53))%Q.

Definition price_tiny : Q := b64 (1 # 100000000000000000000).

Definition trigger_098 : Trigger :=
  {| side := "Up"%string; side_idx := 0;
     price := price_098; time := 1704067350 |}.

(** The value of a hardware float, when it is finite. *)
Definition Q_of_float (f : PrimFloat.float) : option Q :=
  match FloatOps.Prim2SF f with
  | SpecFloat.S754_zero _ => Some 0%Q
  | SpecFloat.S754_finite s m e =>
      Some ((if s then - (1) else 1) * inject_Z (Zpos m) * pow2 e)%Q
  | _ => None
  end.

(** The hardware float of a decimal literal [n / d], for [n] and [d] below
    [2^53]: one correctly rounded division. *)
Definition double (n d : Z) : PrimFloat.float :=
  PrimFloat.div (PrimFloat.of_uint63 (Uint63.of_Z n))
                (PrimFloat.of_uint63 (Uint63.of_Z d)).

Definition same_value (f : PrimFloat.float) (x : Q) : bool :=
  match Q_of_float f with
  | Some y => Qeq_bool y x
  | None => false
  end.

(** * Properties *)

(** ** Comparisons *)

Lemma Qle_bool_false_iff (x y : Q) : Qle_bool x y = false <-> (y < x)%Q.
Proof.
  split; intro H.
  - apply Qnot_le_lt. intro Hle. apply Qle_bool_iff in Hle. congruence.
  - destruct (Qle_bool x y) eqn:E; [|reflexivity].
    apply Qle_bool_iff in E. exfalso. exact (Qlt_not_le _ _ H E).
Qed.

Lemma Qltb_iff (x y : Q) : Qltb x y = true <-> (x < y)%Q.
Proof.
  unfold Qltb. rewrite negb_true_iff. apply Qle_bool_false_iff.
Qed.

Lemma Qltb_false_iff (x y : Q) : Qltb x y = false <-> (y <= x)%Q.
Proof.
  unfold Qltb. rewrite negb_false_iff. apply Qle_bool_iff.
Qed.

(** ** The trigger loops *)

(** One side only matters through its first qualifying tick. *)
Lemma scan_hist_first_hit (T : Q) (outs : list string) (idx : nat)
      (trg : option Trigger) (hist : list Tick) :
  scan_hist T outs idx trg hist =
  match first_hit T hist with
  | None => Ok trg
  | Some p =>
      if earlier p trg then
        s <- index outs idx ;; Ok (Some (trigger_at s idx p))
      else Ok trg
  end.
Proof.
  induction hist as [|p rest IH]; simpl.
  - reflexivity.
  - unfold qualifies at 1.
    destruct (Qle_bool T (tick_p p)); [reflexivity | exact IH].
Qed.

Lemma first_hit_none_iff (T : Q) (hist : list Tick) :
  first_hit T hist = None <-> Forall (fun p => (tick_p p < T)%Q) hist.
Proof.
  unfold first_hit, qualifies.
  induction hist as [|p rest IH]; simpl.
  - split; auto.
  - destruct (Qle_bool T (tick_p p)) eqn:E.
    + split; [discriminate|].
      intro H. inversion H as [|? ? Hp _]; subst.
      apply Qle_bool_false_iff in Hp. congruence.
    + rewrite IH. split.
      * intro H. constructor; [apply Qle_bool_false_iff; exact E | exact H].
      * intro H. inversion H; assumption.
Qed.

Lemma first_hit_some (T : Q) (hist : list Tick) (p : Tick) :
  first_hit T hist = Some p -> In p hist /\ (T <= tick_p p)%Q.
Proof.
  unfold first_hit. intro H. apply find_some in H.
  destruct H as [Hin Hq]. split; [exact Hin|].
  apply Qle_bool_iff. exact Hq.
Qed.

(** Once a trigger is set, the loops never clear it. *)
Lemma scan_hist_keeps_some (T : Q) (outs : list string) (idx : nat)
      (tr : Trigger) (hist : list Tick) :
  scan_hist T outs idx (Some tr) hist <> Ok None.
Proof.
  rewrite scan_hist_first_hit.
  destruct (first_hit T hist) as [p|]; [|discriminate].
  destruct (earlier p (Some tr)); [|discriminate].
  unfold index. destruct (nth_error outs idx); simpl; discriminate.
Qed.

Lemma scan_sides_keeps_some (T : Q) (outs : list string) (hists : list (list Tick)) :
  forall (idx : nat) (tr : Trigger),
    scan_sides T outs idx (Some tr) hists <> Ok None.
Proof.
  induction hists as [|h rest IH]; intros idx tr; simpl.
  - discriminate.
  - destruct (scan_hist T outs idx (Some tr) h) as [[tr'|]|e] eqn:E; simpl.
    + apply IH.
    + exfalso. exact (scan_hist_keeps_some _ _ _ _ _ E).
    + discriminate.
Qed.

Lemma scan_sides_none_iff (T : Q) (outs : list string) (hists : list (list Tick)) :
  forall idx : nat,
    scan_sides T outs idx None hists = Ok None <->
    Forall (fun h => Forall (fun p => (tick_p p < T)%Q) h) hists.
Proof.
  induction hists as [|h rest IH]; intro idx; simpl.
  - split; auto.
  - rewrite scan_hist_first_hit.
    destruct (first_hit T h) as [p|] eqn:E.
    + simpl. split.
      * unfold index. destruct (nth_error outs idx); simpl.
        -- intro H. exfalso. exact (scan_sides_keeps_some _ _ _ _ _ H).
        -- discriminate.
      * intro H. inversion H as [|? ? Hh _]; subst.
        apply first_hit_none_iff in Hh. congruence.
    + simpl. rewrite IH. split.
      * intro H. constructor; [apply first_hit_none_iff; exact E | exact H].
      * intro H. inversion H; assumption.
Qed.

(** On the two sides of a market the loops compute [select_trigger] and do
    not raise. *)
Lemma find_trigger_two_sides (T : Q) (a b : string) (h0 h1 : list Tick) :
  find_trigger T [a; b] [h0; h1] = Ok (select_trigger T a b h0 h1).
Proof.
  unfold find_trigger, select_trigger. simpl.
  rewrite (scan_hist_first_hit T [a; b] 0 None h0).
  destruct (first_hit T h0) as [p0|]; simpl;
    rewrite scan_hist_first_hit;
    destruct (first_hit T h1) as [p1|]; simpl; try reflexivity.
  destruct (tick_t p1 <? tick_t p0); reflexivity.
Qed.

Lemma first_hit_of_qualifying (T : Q) (hist : list Tick) (p : Tick) :
  In p hist -> (T <= tick_p p)%Q -> exists p', first_hit T hist = Some p'.
Proof.
  intros Hin Hq.
  destruct (first_hit T hist) as [p'|] eqn:E; [eauto|].
  exfalso. apply first_hit_none_iff in E.
  rewrite Forall_forall in E. specialize (E p Hin).
  exact (Qlt_not_le _ _ E Hq).
Qed.

(** C1: when side A's first tick at or above the threshold is strictly
    earlier than side B's, the trigger is side A with that tick's price and
    time, whether A is listed first or second.  (The order of the ticks inside
    a side is not needed.) *)
Theorem earlier_side_is_triggered
        (T : Q) (a b : string) (hA hB : list Tick) (pA pB : Tick)
        (HA : first_hit T hA = Some pA)
        (HB : first_hit T hB = Some pB)
        (Hlt : tick_t pA < tick_t pB) :
  find_trigger T [a; b] [hA; hB] = Ok (Some (trigger_at a 0 pA)) /\
  find_trigger T [b; a] [hB; hA] = Ok (Some (trigger_at a 1 pA)).
Proof.
  rewrite !find_trigger_two_sides. unfold select_trigger.
  rewrite HA, HB. split.
  - assert (E : (tick_t pB <? tick_t pA) = false) by (apply Z.ltb_ge; lia).
    rewrite E. reflexivity.
  - assert (E : (tick_t pA <? tick_t pB) = true) by (apply Z.ltb_lt; lia).
    rewrite E. reflexivity.
Qed.

(** C2: the detector returns no trigger exactly when every tick of every
    side is strictly below the threshold; a tick equal to the threshold gives
    a trigger; an empty side is a side without a qualifying tick and raises
    nothing. *)
Theorem no_trigger_iff_all_below
        (T : Q) (outs : list string) (hists : list (list Tick)) :
  (find_trigger T outs hists = Ok None <->
   Forall (fun h => Forall (fun p => (tick_p p < T)%Q) h) hists) /\
  (forall (a b : string) (h0 h1 : list Tick) (p : Tick),
      In p (h0 ++ h1) -> (tick_p p == T)%Q ->
      exists tr, find_trigger T [a; b] [h0; h1] = Ok (Some tr)) /\
  (forall (a b : string) (h : list Tick),
      find_trigger T [a; b] [[]; h] = Ok (option_map (trigger_at b 1) (first_hit T h)) /\
      find_trigger T [a; b] [h; []] = Ok (option_map (trigger_at a 0) (first_hit T h)) /\
      find_trigger T [a; b] [[]; []] = Ok None).
Proof.
  split; [apply scan_sides_none_iff|]. split.
  - intros a b h0 h1 p Hin Heq.
    rewrite find_trigger_two_sides. unfold select_trigger.
    assert (Hq : (T <= tick_p p)%Q) by (rewrite Heq; apply Qle_refl).
    apply in_app_or in Hin. destruct Hin as [Hin|Hin].
    + destruct (first_hit_of_qualifying T h0 p Hin Hq) as [p0 E0]. rewrite E0.
      destruct (first_hit T h1) as [p1|]; [|eauto].
      destruct (tick_t p1 <? tick_t p0); eauto.
    + destruct (first_hit_of_qualifying T h1 p Hin Hq) as [p1 E1]. rewrite E1.
      destruct (first_hit T h0) as [p0|]; [|eauto].
      destruct (tick_t p1 <? tick_t p0); eauto.
  - intros a b h. rewrite !find_trigger_two_sides. unfold select_trigger. simpl.
    destruct (first_hit T h); repeat split; reflexivity.
Qed.

(** C9: when the first qualifying ticks of the two sides carry the same
    time, the trigger is the side at index 0; the side at index 1 is selected
    exactly when its time is strictly smaller. *)
Theorem tie_keeps_first_side
        (T : Q) (a b : string) (hA hB : list Tick) (pA pB : Tick)
        (HA : first_hit T hA = Some pA)
        (HB : first_hit T hB = Some pB) :
  (tick_t pA = tick_t pB ->
   find_trigger T [a; b] [hA; hB] = Ok (Some (trigger_at a 0 pA))) /\
  (find_trigger T [a; b] [hA; hB] = Ok (Some (trigger_at b 1 pB)) <->
   tick_t pB < tick_t pA).
Proof.
  rewrite find_trigger_two_sides. unfold select_trigger. rewrite HA, HB.
  destruct (tick_t pB <? tick_t pA) eqn:E.
  - apply Z.ltb_lt in E. split; [lia|]. split; [intros _; exact E | reflexivity].
  - apply Z.ltb_ge in E. split; [reflexivity|]. split; [|lia].
    intro H. inversion H.
Qed.

(** ** Settlement *)

Lemma won_of_iff (tr : Trigger) (winner : option string) :
  won_of tr winner = true <-> winner = Some (side tr).
Proof.
  unfold won_of. destruct winner as [w|].
  - rewrite String.eqb_eq. split; intro H.
    + subst. reflexivity.
    + inversion H. reflexivity.
  - split; discriminate.
Qed.

(** C3: a trade is a win exactly when the label of the triggered side is the
    resolved winner; the PnL is [1 - p - F] on a win and [-(p + F)] on a loss;
    with no winner the trade is a loss with PnL [-(p + F)].  The trade record
    carries this flag. *)
Theorem settlement_scoring (F : Q) (slug : string) (tr : Trigger)
        (winner : option string) (end_ts : Z) :
  (won_of tr winner = true <-> winner = Some (side tr)) /\
  (won_of tr winner = true ->
   pnl_of F (won_of tr winner) (price tr) = (1 - price tr - F)%Q) /\
  (won_of tr winner = false ->
   pnl_of F (won_of tr winner) (price tr) = (- (price tr + F))%Q) /\
  (winner = None ->
   won_of tr winner = false /\
   pnl_of F (won_of tr winner) (price tr) = (- (price tr + F))%Q) /\
  trade_won (make_trade F slug tr winner end_ts) = won_of tr winner /\
  trade_pnl (make_trade F slug tr winner end_ts) =
    py_round (pnl_of F (won_of tr winner) (price tr)) 4.
Proof.
  split; [apply won_of_iff|].
  split; [intro H; rewrite H; reflexivity|].
  split; [intro H; rewrite H; reflexivity|].
  split; [intro H; subst; split; reflexivity|].
  split; reflexivity.
Qed.


(** ** Rounding *)

Lemma round_half_even_nonpos (y : Q) : (y <= 0)%Q -> round_half_even y <= 0.
Proof.
  intro Hy. unfold round_half_even.
  assert (Hf : Qfloor y <= 0).
  { change 0 with (Qfloor 0). apply Qfloor_resp_le. exact Hy. }
  assert (Hz : Qfloor y = 0 -> (y - inject_Z (Qfloor y) <= 0)%Q).
  { intro E. rewrite E. unfold inject_Z. lra. }
  destruct ((y - inject_Z (Qfloor y) ?= 1 # 2)%Q) eqn:C.
  - apply Qeq_alt in C.
    assert (Qfloor y <> 0) by (intro E; specialize (Hz E); lra).
    destruct (Z.even (Qfloor y)); lia.
  - exact Hf.
  - apply Qgt_alt in C.
    assert (Qfloor y <> 0) by (intro E; specialize (Hz E); lra).
    lia.
Qed.

Lemma scale_pos (n : nat) : (0 < inject_Z (10 ^ Z.of_nat n))%Q.
Proof.
  change 0%Q with (inject_Z 0). rewrite <- Zlt_Qlt.
  apply Z.pow_pos_nonneg; lia.
Qed.

Lemma py_round_nonpos (x : Q) (n : nat) : (x <= 0)%Q -> (py_round x n <= 0)%Q.
Proof.
  intro Hx. unfold py_round.
  pose proof (scale_pos n) as Hs.
  set (s := inject_Z (10 ^ Z.of_nat n)) in *.
  apply Qle_shift_div_r; [exact Hs|].
  assert (Hxs : (x * s <= 0)%Q).
  { setoid_replace 0%Q with (0 * s)%Q by ring.
    apply Qmult_le_compat_r; [exact Hx | apply Qlt_le_weak; exact Hs]. }
  apply round_half_even_nonpos in Hxs.
  setoid_replace (0 * s)%Q with (inject_Z 0) by (unfold inject_Z; ring).
  rewrite <- Zle_Qle. exact Hxs.
Qed.

(** ** The summary *)

Lemma py_div_ok (a b : Q) : ~ (b == 0)%Q -> py_div a b = Ok (a / b)%Q.
Proof.
  intro H. unfold py_div.
  destruct (Qeq_bool b 0) eqn:E; [|reflexivity].
  apply Qeq_bool_iff in E. contradiction.
Qed.

Lemma inject_pos_nonzero (z : Z) : 0 < z -> ~ (inject_Z z == 0)%Q.
Proof.
  intros Hz H. unfold Qeq, inject_Z in H. simpl in H. lia.
Qed.

(** No quotient of the summary has a zero divisor: the two rates divide by
    [max(1, n)] and the mean time to expiry is computed only for a non-empty
    trade list. *)
Lemma summary_ok (n_closed : nat) (st : State) :
  summary n_closed st =
  Ok {| markets_scanned := n_closed;
        skipped_bad_data := skipped st;
        n_trades := List.length (trades st);
        n_wins := List.length (filter is_win (trades st));
        win_rate_pct :=
          (inject_Z (Z.of_nat (List.length (filter is_win (trades st))))
           / count_denominator st * 100)%Q;
        avg_pnl := (sumQ (map trade_pnl (trades st)) / count_denominator st)%Q;
        total_pnl :=
          if nonempty (trades st) then Some (sumQ (map trade_pnl (trades st)))
          else None;
        avg_tte :=
          if nonempty (trades st) then
            Some (inject_Z (sumZ (map trade_tte_secs (trades st)))
                  / inject_Z (Z.of_nat (List.length (map trade_tte_secs (trades st)))))%Q
          else None;
        report_trades := trades st;
        report_log := log st |}.
Proof.
  unfold summary, count_denominator.
  rewrite !py_div_ok by (apply inject_pos_nonzero; lia). simpl.
  destruct (trades st) as [|t ts] eqn:E; simpl; reflexivity.
Qed.

(** C7: the summary step never raises; on an empty trade list it reports a
    win rate of 0 and an average PnL of 0, and a run whose loop ends without
    trades returns that report. *)
Theorem empty_trades_summary
        (T F : Q) (fromisoformat : string -> result Z)
        (prices : string -> Z -> Z -> result (list Tick)) :
  (forall (n_closed : nat) (st : State), exists r, summary n_closed st = Ok r) /\
  (forall (n_closed : nat) (st : State),
      trades st = [] ->
      exists r, summary n_closed st = Ok r /\
                n_trades r = O /\ n_wins r = O /\
                win_rate_pct r = 0%Q /\ avg_pnl r = 0%Q /\
                total_pnl r = None /\ avg_tte r = None) /\
  (forall (mkts : list Market) (st : State),
      nonempty mkts = true ->
      run_loop T F fromisoformat prices init (filter closed mkts) = Ok st ->
      trades st = [] ->
      exists r, run T F fromisoformat prices mkts = Ok (Some r) /\
                win_rate_pct r = 0%Q /\ avg_pnl r = 0%Q).
Proof.
  assert (Hempty : forall (n_closed : nat) (st : State),
             trades st = [] ->
             exists r, summary n_closed st = Ok r /\
                       n_trades r = O /\ n_wins r = O /\
                       win_rate_pct r = 0%Q /\ avg_pnl r = 0%Q /\
                       total_pnl r = None /\ avg_tte r = None).
  { intros n_closed st H. eexists. split; [apply summary_ok|].
    unfold count_denominator. rewrite H. simpl. repeat split; reflexivity. }
  split; [intros; eexists; apply summary_ok|].
  split; [exact Hempty|].
  intros mkts st Hne Hloop Htr.
  destruct (Hempty (List.length (filter closed mkts)) st Htr)
    as [r [Hr [_ [_ [Hw [Ha _]]]]]].
  exists r. unfold run. rewrite Hne, Hloop. simpl. rewrite Hr. simpl.
  repeat split; assumption.
Qed.

Lemma is_win_false_iff (t : Trade) : is_win t = false <-> (trade_pnl t <= 0)%Q.
Proof. unfold is_win. apply Qltb_false_iff. Qed.

(** ** resolved_outcome *)

Lemma is_first_max_unique (keys : list Q) (i j : nat) (v w : Q) :
  is_first_max keys i v -> is_first_max keys j w -> i = j /\ v = w.
Proof.
  intros [Hi [Hall_i Hbefore_i]] [Hj [Hall_j Hbefore_j]].
  assert (E : i = j).
  { destruct (Nat.lt_trichotomy i j) as [L|[L|L]]; [|exact L|]; exfalso.
    - pose proof (Hbefore_j i v L Hi). pose proof (Hall_i j w Hj). lra.
    - pose proof (Hbefore_i j w L Hj). pose proof (Hall_j i v Hi). lra. }
  subst j. split; [reflexivity|]. congruence.
Qed.

Lemma max_index_from_spec (keys : list Q) :
  forall (pre : list Q) (best : nat) (bestv : Q),
    is_first_max pre best bestv ->
    exists v, is_first_max (pre ++ keys)
                           (max_index_from best bestv (List.length pre) keys) v.
Proof.
  induction keys as [|k rest IH]; intros pre best bestv [Hb [Hall Hbefore]].
  - simpl. rewrite app_nil_r. exists bestv. repeat split; assumption.
  - assert (Hlt : (best < List.length pre)%nat).
    { apply nth_error_Some. congruence. }
    replace (pre ++ k :: rest) with ((pre ++ [k]) ++ rest)
      by (rewrite <- app_assoc; reflexivity).
    simpl. destruct (Qltb bestv k) eqn:C.
    + apply Qltb_iff in C.
      replace (S (List.length pre)) with (List.length (pre ++ [k]))
        by (rewrite length_app; simpl; lia).
      apply IH. repeat split.
      * rewrite nth_error_app2 by lia. rewrite Nat.sub_diag. reflexivity.
      * intros j w Hj.
        destruct (Nat.lt_ge_cases j (List.length pre)) as [L|L].
        -- rewrite nth_error_app1 in Hj by exact L.
           pose proof (Hall j w Hj). lra.
        -- rewrite nth_error_app2 in Hj by exact L.
           destruct (j - List.length pre)%nat as [|d]; simpl in Hj.
           ++ inversion Hj. lra.
           ++ destruct d; discriminate.
      * intros j w L Hj. rewrite nth_error_app1 in Hj by exact L.
        pose proof (Hall j w Hj). lra.
    + apply Qltb_false_iff in C.
      replace (S (List.length pre)) with (List.length (pre ++ [k]))
        by (rewrite length_app; simpl; lia).
      apply IH. repeat split.
      * rewrite nth_error_app1 by exact Hlt. exact Hb.
      * intros j w Hj.
        destruct (Nat.lt_ge_cases j (List.length pre)) as [L|L].
        -- rewrite nth_error_app1 in Hj by exact L. exact (Hall j w Hj).
        -- rewrite nth_error_app2 in Hj by exact L.
           destruct (j - List.length pre)%nat as [|d]; simpl in Hj.
           ++ inversion Hj. subst. exact C.
           ++ destruct d; discriminate.
      * intros j w L Hj.
        rewrite nth_error_app1 in Hj by lia. exact (Hbefore j w L Hj).
Qed.

(** Python's [max] over the indices returns the first index of the maximum. *)
Lemma max_index_spec (k : Q) (rest : list Q) :
  exists v, is_first_max (k :: rest) (max_index (k :: rest)) v.
Proof.
  unfold max_index.
  apply (max_index_from_spec rest [k] O k).
  repeat split.
  - intros j w Hj. destruct j as [|j]; simpl in Hj.
    + inversion Hj. lra.
    + destruct j; discriminate.
  - intros j w L. lia.
Qed.

Lemma mapM_float_some (keys : list Q) : mapM float (map Some keys) = Ok keys.
Proof.
  induction keys as [|k rest IH]; simpl; [reflexivity|].
  rewrite IH. reflexivity.
Qed.

Lemma mapM_float_none (entries : list price_entry) :
  In None entries -> mapM float entries = Raise ValueError.
Proof.
  induction entries as [|e rest IH]; simpl; [contradiction|].
  intros [H|H].
  - subst. reflexivity.
  - destruct e as [q|]; simpl; [|reflexivity].
    rewrite (IH H). reflexivity.
Qed.

Lemma resolved_outcome_at_max (m : Market) (outs : list string) (keys : list Q)
      (i : nat) (v : Q) :
  loads_get (outcomes m) = Ok outs ->
  loads_get (outcomePrices m) = Ok (map Some keys) ->
  outs <> [] ->
  is_first_max keys i v ->
  resolved_outcome m = if Qltb (9 # 10) v then nth_error outs i else None.
Proof.
  intros Ho Hp Hne Hmax.
  unfold resolved_outcome, resolved_outcome_try.
  rewrite Ho, Hp. simpl.
  destruct keys as [|k rest].
  { destruct Hmax as [Hn _]. destruct i; discriminate. }
  destruct outs as [|o outs']; [contradiction|].
  change (nonempty (map Some (k :: rest)) && nonempty (o :: outs')) with true.
  cbv iota. rewrite mapM_float_some. cbv beta iota delta [bind].
  destruct (max_index_spec k rest) as [v' Hspec].
  destruct (is_first_max_unique _ _ _ _ _ Hspec Hmax) as [Ei Ev].
  rewrite Ei. subst v'.
  destruct Hmax as [Hn _].
  unfold index at 1. rewrite nth_error_map, Hn. simpl.
  destruct (Qltb (9 # 10) v); [|reflexivity].
  unfold index. destruct (nth_error (o :: outs') i); reflexivity.
Qed.

(** C4, amended: when both sequences decode, are non-empty and every price
    is a number, the winner is the label at the first index of the maximum
    price exactly when that maximum exceeds 0.9 and the label sequence has an
    entry at that index.  The resolution is undefined when the maximum is at
    most 0.9, when the label sequence has no entry at that index, when either
    sequence is empty, and when decoding either sequence or reading a price
    fails. *)
Theorem resolved_outcome_spec (m : Market) :
  (outcomes m = Malformed \/ outcomePrices m = Malformed ->
   resolved_outcome m = None) /\
  (forall (outs : list string) (entries : list price_entry),
      loads_get (outcomes m) = Ok outs ->
      loads_get (outcomePrices m) = Ok entries ->
      (outs = [] \/ entries = [] -> resolved_outcome m = None) /\
      (In None entries -> resolved_outcome m = None) /\
      (forall (keys : list Q) (i : nat) (v : Q),
          entries = map Some keys ->
          outs <> [] ->
          is_first_max keys i v ->
          (forall l : string,
              resolved_outcome m = Some l <->
              ((9 # 10) < v)%Q /\ nth_error outs i = Some l) /\
          ((v <= 9 # 10)%Q -> resolved_outcome m = None) /\
          (nth_error outs i = None -> resolved_outcome m = None))).
Proof.
  split.
  - unfold resolved_outcome, resolved_outcome_try.
    intros [H|H]; rewrite H; simpl; [reflexivity|].
    destruct (loads_get (outcomes m)); reflexivity.
  - intros outs entries Ho Hp. split; [|split].
    + unfold resolved_outcome, resolved_outcome_try. rewrite Ho, Hp. simpl.
      intros [H|H]; subst; simpl; [|reflexivity].
      rewrite andb_false_r. reflexivity.
    + intro Hin.
      unfold resolved_outcome, resolved_outcome_try. rewrite Ho, Hp. simpl.
      destruct (nonempty entries && nonempty outs); [|reflexivity].
      rewrite (mapM_float_none entries Hin). reflexivity.
    + intros keys i v He Hne Hmax. subst entries.
      rewrite (resolved_outcome_at_max m outs keys i v Ho Hp Hne Hmax).
      destruct (Qltb (9 # 10) v) eqn:C.
      * apply Qltb_iff in C. split; [|split].
        -- intro l. split; [intro H; split; assumption | intros [_ H]; exact H].
        -- intro H. lra.
        -- intro H. exact H.
      * apply Qltb_false_iff in C. split; [|split].
        -- intro l. split; [discriminate | intros [H _]; lra].
        -- reflexivity.
        -- reflexivity.
Qed.

(** ** The loop of [run] *)

Lemma run_loop_app (T F : Q) (fromisoformat : string -> result Z)
      (prices : string -> Z -> Z -> result (list Tick)) (pre post : list Market) :
  forall st : State,
    run_loop T F fromisoformat prices st (pre ++ post) =
    (st' <- run_loop T F fromisoformat prices st pre ;;
     run_loop T F fromisoformat prices st' post).
Proof.
  induction pre as [|m rest IH]; intro st; simpl; [reflexivity|].
  destruct (process_market T F fromisoformat prices st m); simpl;
    [apply IH | reflexivity].
Qed.

(** C6: a market whose decoded token list or label list does not have
    exactly two elements only adds one to the skip counter and one SKIP line
    to the log: no price request, no trade; the loop goes on with the next
    market. *)
Theorem wrong_side_count_is_skipped
        (T F : Q) (fromisoformat : string -> result Z)
        (prices : string -> Z -> Z -> result (list Tick))
        (st : State) (m : Market) (ms : list Market) (token_ids outs : list string)
        (Ht : clobTokenIds m = Value token_ids)
        (Ho : outcomes m = Value outs)
        (Hn : List.length token_ids <> 2%nat \/ List.length outs <> 2%nat) :
  let st' := skip st (SkipSides (get_slug m) (List.length token_ids)) in
  process_market T F fromisoformat prices st m = Ok st' /\
  skipped st' = skipped st + 1 /\
  trades st' = trades st /\
  log st' = log st ++ [SkipSides (get_slug m) (List.length token_ids)] /\
  run_loop T F fromisoformat prices st (m :: ms) =
  run_loop T F fromisoformat prices st' ms.
Proof.
  intro st'.
  assert (Hw : wrong_sides token_ids outs = true).
  { unfold wrong_sides. apply orb_true_iff.
    destruct Hn as [H|H]; [left|right];
      apply negb_true_iff; apply Nat.eqb_neq; exact H. }
  assert (Hp : process_market T F fromisoformat prices st m = Ok st').
  { unfold process_market, parse_sides. rewrite Ht, Ho. simpl.
    rewrite Hw. reflexivity. }
  repeat split; try reflexivity; try exact Hp.
  simpl. rewrite Hp. reflexivity.
Qed.

(** C5 (what the code does): a closed market with two tokens and two labels
    whose [endDate] is rejected by the timestamp parser makes the loop body
    raise; the exception is not caught, so the loop and [run] raise it: the
    market is not counted as skipped, the markets after it are not processed
    and no summary is produced. *)
Theorem bad_timestamp_aborts_run
        (T F : Q) (fromisoformat : string -> result Z)
        (prices : string -> Z -> Z -> result (list Tick))
        (m : Market) (pre ms : list Market) (token_ids outs : list string)
        (iso : string) (e : exn) (st_pre : State)
        (Hc : closed m = true)
        (Ht : clobTokenIds m = Value token_ids)
        (Ho : outcomes m = Value outs)
        (H2 : List.length token_ids = 2%nat /\ List.length outs = 2%nat)
        (Hd : endDate m = Some iso)
        (Hbad : fromisoformat (replace_Z iso) = Raise e)
        (Hpre : run_loop T F fromisoformat prices init (filter closed pre) = Ok st_pre) :
  process_market T F fromisoformat prices st_pre m = Raise e /\
  run_loop T F fromisoformat prices st_pre (m :: filter closed ms) = Raise e /\
  run T F fromisoformat prices (pre ++ m :: ms) = Raise e.
Proof.
  destruct H2 as [H2t H2o].
  assert (Hp : forall st, process_market T F fromisoformat prices st m = Raise e).
  { intro st. unfold process_market, parse_sides. rewrite Ht, Ho. simpl.
    unfold wrong_sides. rewrite H2t, H2o. simpl.
    unfold get_endDate. rewrite Hd. simpl.
    unfold iso_to_ts. rewrite Hbad. reflexivity. }
  split; [apply Hp|]. split.
  - simpl. rewrite Hp. reflexivity.
  - unfold run.
    replace (nonempty (pre ++ m :: ms)) with true by (destruct pre; reflexivity).
    rewrite filter_app. simpl. rewrite Hc.
    rewrite run_loop_app, Hpre. simpl. rewrite Hp. reflexivity.
Qed.

(** * The properties on the example data *)

Example scenario_trigger :
  find_trigger Config.THRESHOLD ["Up"; "Down"]%string [up_hist; down_hist]
  = Ok (Some down_trigger).
Proof. reflexivity. Qed.

Example scenario_loss :
  resolved_outcome market_ok = Some "Up"%string /\
  won_of down_trigger (resolved_outcome market_ok) = false /\
  (pnl_of Config.FEE (won_of down_trigger (resolved_outcome market_ok))
          (price down_trigger) == - (995 # 1000))%Q.
Proof. repeat split. Qed.

Lemma earlier_side_is_triggered_witness :
  first_hit Config.THRESHOLD down_hist = Some down_first /\
  first_hit Config.THRESHOLD up_hist = Some up_first /\
  tick_t down_first < tick_t up_first /\
  find_trigger Config.THRESHOLD ["Down"; "Up"]%string [down_hist; up_hist]
  = Ok (Some (trigger_at "Down" 0 down_first)) /\
  find_trigger Config.THRESHOLD ["Up"; "Down"]%string [up_hist; down_hist]
  = Ok (Some (trigger_at "Down" 1 down_first)).
Proof.
  split; [reflexivity|]. split; [reflexivity|]. split; [reflexivity|].
  apply (earlier_side_is_triggered Config.THRESHOLD "Down" "Up"
                                   down_hist up_hist down_first up_first);
    reflexivity.
Defined.

Lemma no_trigger_iff_all_below_witness :
  find_trigger Config.THRESHOLD ["Up"; "Down"]%string [quiet_hist; []] = Ok None /\
  exists tr,
    find_trigger Config.THRESHOLD ["Up"; "Down"]%string [quiet_hist; tie_hist]
    = Ok (Some tr).
Proof.
  split.
  - apply (proj2 (proj1 (no_trigger_iff_all_below
                           Config.THRESHOLD ["Up"; "Down"]%string [quiet_hist; []]))).
    repeat (constructor; try reflexivity).
  - apply (proj1 (proj2 (no_trigger_iff_all_below Config.THRESHOLD [] []))
                 "Up"%string "Down"%string quiet_hist tie_hist tie_first).
    + simpl. auto.
    + reflexivity.
Defined.

Lemma tie_keeps_first_side_witness :
  tick_t up_first = tick_t tie_first /\
  find_trigger Config.THRESHOLD ["Up"; "Down"]%string [up_hist; tie_hist]
  = Ok (Some (trigger_at "Up" 0 up_first)).
Proof.
  split; [reflexivity|].
  apply (proj1 (tie_keeps_first_side Config.THRESHOLD "Up" "Down"
                                     up_hist tie_hist up_first tie_first
                                     eq_refl eq_refl)).
  reflexivity.
Defined.

Lemma settlement_scoring_witness :
  won_of late_up_trigger (Some "Up"%string) = true /\
  pnl_of Config.FEE (won_of late_up_trigger (Some "Up"%string)) (price late_up_trigger)
  = (1 - price late_up_trigger - Config.FEE)%Q /\
  won_of down_trigger None = false /\
  pnl_of Config.FEE (won_of down_trigger None) (price down_trigger)
  = (- (price down_trigger + Config.FEE))%Q.
Proof.
  destruct (settlement_scoring Config.FEE "m"%string late_up_trigger
                               (Some "Up"%string) 1704068100)
    as [Hiff [Hwin _]].
  destruct (settlement_scoring Config.FEE "m"%string down_trigger None 1704068100)
    as [_ [_ [_ [Hnone _]]]].
  split; [apply Hiff; reflexivity|].
  split; [apply Hwin; apply Hiff; reflexivity|].
  apply Hnone. reflexivity.
Defined.

Lemma empty_trades_summary_witness :
  exists r,
    run Config.THRESHOLD Config.FEE fromisoformat_table prices_table
        [market_three_sides] = Ok (Some r) /\
    win_rate_pct r = 0%Q /\ avg_pnl r = 0%Q.
Proof.
  refine (proj2 (proj2 (empty_trades_summary Config.THRESHOLD Config.FEE
                                             fromisoformat_table prices_table))
                [market_three_sides] _ eq_refl _ _).
  - reflexivity.
  - reflexivity.
Defined.

Lemma first_max_of_settled :
  is_first_max [98 # 100; 2 # 100]%Q 0 (98 # 100).
Proof.
  repeat split.
  - intros j w Hj. destruct j as [|[|j]]; simpl in Hj.
    + inversion Hj. discriminate.
    + inversion Hj. discriminate.
    + destruct j; discriminate.
  - intros j w L. inversion L.
Defined.

Lemma resolved_outcome_spec_witness :
  resolved_outcome market_ok = Some "Up"%string.
Proof.
  destruct (resolved_outcome_spec market_ok) as [_ H].
  destruct (H ["Up"; "Down"]%string [Some (98 # 100); Some (2 # 100)]
              eq_refl eq_refl) as [_ [_ H3]].
  destruct (H3 [98 # 100; 2 # 100]%Q 0%nat (98 # 100) eq_refl
               ltac:(discriminate) first_max_of_settled) as [Hiff _].
  apply Hiff. split; reflexivity.
Defined.

(** C4, as written, fails when the price sequence is longer than the label
    sequence: the maximum 0.98 exceeds 0.9 at index 2, there is no label at
    index 2, and the resolution is undefined. *)
Lemma resolved_outcome_label_missing :
  resolved_outcome market_extra_price = None /\
  ~ label_at_max_iff_above market_extra_price ["Up"; "Down"]%string
                           [1 # 100; 1 # 100; 98 # 100]%Q.
Proof.
  split; [reflexivity|].
  intro H.
  assert (Hmax : is_first_max [1 # 100; 1 # 100; 98 # 100]%Q 2 (98 # 100)).
  { repeat split.
    - intros j w Hj. destruct j as [|[|[|j]]]; simpl in Hj.
      + inversion Hj. discriminate.
      + inversion Hj. discriminate.
      + inversion Hj. discriminate.
      + destruct j; discriminate.
    - intros j w L Hj. destruct j as [|[|j]]; [| |lia];
        simpl in Hj; inversion Hj; reflexivity. }
  destruct (proj1 (H 2%nat (98 # 100) Hmax) eq_refl) as [l [Hl _]].
  discriminate.
Qed.

Lemma wrong_side_count_is_skipped_witness :
  process_market Config.THRESHOLD Config.FEE fromisoformat_table prices_table
                 init market_three_sides
  = Ok (skip init (SkipSides "btc-updown-15m-1704069000" 3)) /\
  run_loop Config.THRESHOLD Config.FEE fromisoformat_table prices_table
           init [market_three_sides; market_ok]
  = run_loop Config.THRESHOLD Config.FEE fromisoformat_table prices_table
             (skip init (SkipSides "btc-updown-15m-1704069000" 3)) [market_ok].
Proof.
  assert (Hn : List.length ["tok-up"; "tok-down"; "tok-flat"]%string <> 2%nat \/
               List.length ["Up"; "Down"]%string <> 2%nat)
    by (left; simpl; discriminate).
  pose proof (wrong_side_count_is_skipped
                Config.THRESHOLD Config.FEE fromisoformat_table prices_table
                init market_three_sides [market_ok]
                ["tok-up"; "tok-down"; "tok-flat"]%string ["Up"; "Down"]%string
                eq_refl eq_refl Hn) as H.
  cbv zeta in H. destruct H as [H1 [_ [_ [_ H5]]]].
  split; [exact H1 | exact H5].
Defined.

Lemma bad_timestamp_aborts_run_witness :
  run Config.THRESHOLD Config.FEE fromisoformat_table prices_table
      [market_ok; market_bad_date; market_ok] = Raise ValueError.
Proof.
  refine (proj2 (proj2 (bad_timestamp_aborts_run
                          Config.THRESHOLD Config.FEE fromisoformat_table prices_table
                          market_bad_date [market_ok] [market_ok]
                          ["tok-up"; "tok-down"]%string ["Up"; "Down"]%string
                          "not-a-date"%string ValueError _
                          eq_refl eq_refl eq_refl (conj eq_refl eq_refl)
                          eq_refl eq_refl _))).
  reflexivity.
Defined.

(** * Further properties of the trigger loops *)

Lemma scan_sides_sound (T : Q) (outs : list string) (hists : list (list Tick)) :
  forall (idx : nat) (trg : option Trigger) (tr : Trigger),
    scan_sides T outs idx trg hists = Ok (Some tr) ->
    trg = Some tr \/
    exists (k : nat) (hist : list Tick) (p : Tick),
      nth_error hists k = Some hist /\
      side_idx tr = (idx + k)%nat /\
      first_hit T hist = Some p /\
      nth_error outs (idx + k) = Some (side tr) /\
      tr = trigger_at (side tr) (idx + k) p.
Proof.
  induction hists as [|h rest IH]; intros idx trg tr H; simpl in H.
  - left. congruence.
  - rewrite scan_hist_first_hit in H.
    assert (Hshift : forall trg',
               scan_sides T outs (S idx) trg' rest = Ok (Some tr) ->
               trg' = Some tr \/
               exists (k : nat) (hist : list Tick) (p : Tick),
                 nth_error (h :: rest) k = Some hist /\
                 side_idx tr = (idx + k)%nat /\
                 first_hit T hist = Some p /\
                 nth_error outs (idx + k) = Some (side tr) /\
                 tr = trigger_at (side tr) (idx + k) p).
    { intros trg' H'. destruct (IH _ _ _ H') as [E | [k [hist [p Hk]]]].
      - left. exact E.
      - right. exists (S k), hist, p.
        replace (idx + S k)%nat with (S idx + k)%nat by lia. exact Hk. }
    destruct (first_hit T h) as [p|] eqn:Ep.
    + destruct (earlier p trg).
      * unfold index in H. destruct (nth_error outs idx) as [s|] eqn:Es;
          simpl in H; [|discriminate].
        destruct (Hshift _ H) as [E | Hr]; [|right; exact Hr].
        right. exists O, h, p. rewrite Nat.add_0_r.
        inversion E. subst tr. simpl. repeat split; assumption.
      * simpl in H. destruct (Hshift _ H) as [E | Hr]; [left|right]; assumption.
    + simpl in H. destruct (Hshift _ H) as [E | Hr]; [left|right]; assumption.
Qed.

Lemma find_trigger_sound (T : Q) (outs : list string) (hists : list (list Tick))
      (tr : Trigger) :
  find_trigger T outs hists = Ok (Some tr) ->
  exists (hist : list Tick) (p : Tick),
    nth_error hists (side_idx tr) = Some hist /\
    first_hit T hist = Some p /\
    nth_error outs (side_idx tr) = Some (side tr) /\
    price tr = tick_p p /\ time tr = tick_t p /\
    (T <= price tr)%Q.
Proof.
  intro H. destruct (scan_sides_sound T outs hists O None tr H)
    as [E | [k [hist [p [Hk [Hi [Hp [Ho Htr]]]]]]]]; [discriminate|].
  simpl in Hi, Ho, Htr. exists hist, p. rewrite Hi.
  destruct (first_hit_some T hist p Hp) as [_ Hq].
  rewrite Htr. simpl. repeat split; assumption.
Qed.

Lemma scan_sides_min (T : Q) (outs : list string) (hists : list (list Tick)) :
  forall (idx : nat) (trg : option Trigger) (tr : Trigger),
    scan_sides T outs idx trg hists = Ok (Some tr) ->
    (forall t0, trg = Some t0 -> time tr <= time t0) /\
    (forall hist p, In hist hists -> first_hit T hist = Some p ->
                    time tr <= tick_t p).
Proof.
  induction hists as [|h rest IH]; intros idx trg tr H; simpl in H.
  - split; [|intros hist p []].
    intros t0 E. subst. inversion H. lia.
  - rewrite scan_hist_first_hit in H.
    destruct (first_hit T h) as [p|] eqn:Ep.
    + destruct (earlier p trg) eqn:Ee.
      * unfold index in H. destruct (nth_error outs idx) as [s|];
          simpl in H; [|discriminate].
        destruct (IH _ _ _ H) as [Hcur Hrest].
        pose proof (Hcur _ eq_refl) as Hp. simpl in Hp.
        split.
        -- intros t0 E. subst trg. simpl in Ee. apply Z.ltb_lt in Ee. lia.
        -- intros hist q [E|Hin] Hq; [|exact (Hrest hist q Hin Hq)].
           subst hist. rewrite Ep in Hq. inversion Hq. subst q. exact Hp.
      * simpl in H. destruct (IH _ _ _ H) as [Hcur Hrest].
        split; [exact Hcur|].
        intros hist q [E|Hin] Hq; [|exact (Hrest hist q Hin Hq)].
        subst hist. rewrite Ep in Hq. inversion Hq. subst q.
        destruct trg as [t0|]; simpl in Ee; [|discriminate].
        apply Z.ltb_ge in Ee. pose proof (Hcur t0 eq_refl). lia.
    + simpl in H. destruct (IH _ _ _ H) as [Hcur Hrest].
      split; [exact Hcur|].
      intros hist q [E|Hin] Hq; [|exact (Hrest hist q Hin Hq)].
      subst hist. congruence.
Qed.

Lemma first_hit_earliest_when_sorted (T : Q) (hist : list Tick) (p q : Tick) :
  time_sorted hist ->
  first_hit T hist = Some p ->
  In q hist -> (T <= tick_p q)%Q ->
  tick_t p <= tick_t q.
Proof.
  unfold time_sorted, first_hit.
  induction hist as [|a rest IH]; intros Hs Hp Hin Hq; [contradiction|].
  apply StronglySorted_inv in Hs. destruct Hs as [Hs Hall].
  simpl in Hp. destruct (qualifies T a) eqn:Ea.
  - inversion Hp. subst a. destruct Hin as [E|Hin]; [subst; lia|].
    rewrite Forall_forall in Hall. exact (Hall q Hin).
  - destruct Hin as [E|Hin].
    + subst a. unfold qualifies in Ea. apply Qle_bool_iff in Hq. congruence.
    + exact (IH Hs Hp Hin Hq).
Qed.

(** The trigger the loops return is the first qualifying tick of the side it
    names: its index points at that side's history and at its own label, its
    price and time are that tick's, and its price is at or above the
    threshold. *)
Theorem trigger_is_first_hit_of_its_side
        (T : Q) (outs : list string) (hists : list (list Tick)) (tr : Trigger)
        (H : find_trigger T outs hists = Ok (Some tr)) :
  exists (hist : list Tick) (p : Tick),
    nth_error hists (side_idx tr) = Some hist /\
    first_hit T hist = Some p /\
    nth_error outs (side_idx tr) = Some (side tr) /\
    price tr = tick_p p /\ time tr = tick_t p /\
    (T <= price tr)%Q.
Proof. exact (find_trigger_sound T outs hists tr H). Qed.

(** When every side is in ascending time, no tick at or above the threshold,
    on any side, is earlier than the trigger. *)
Theorem trigger_is_earliest_qualifying_tick
        (T : Q) (outs : list string) (hists : list (list Tick)) (tr : Trigger)
        (Hsorted : Forall time_sorted hists)
        (H : find_trigger T outs hists = Ok (Some tr)) :
  forall (hist : list Tick) (q : Tick),
    In hist hists -> In q hist -> (T <= tick_p q)%Q -> time tr <= tick_t q.
Proof.
  intros hist q Hh Hq Hge.
  destruct (first_hit_of_qualifying T hist q Hq Hge) as [p Hp].
  destruct (scan_sides_min T outs hists O None tr H) as [_ Hmin].
  pose proof (Hmin hist p Hh Hp).
  rewrite Forall_forall in Hsorted.
  pose proof (first_hit_earliest_when_sorted T hist p q (Hsorted hist Hh) Hp Hq Hge).
  lia.
Qed.

(** * Further properties of the loop of [run] *)

(** What the loop body can do to the state when it does not raise. *)
Lemma process_market_inv (T F : Q) (fromisoformat : string -> result Z)
      (prices : string -> Z -> Z -> result (list Tick))
      (st st' : State) (m : Market) :
  process_market T F fromisoformat prices st m = Ok st' ->
  (st' = skip st (SkipBadJson (get_slug m)) /\
   (forall token_ids, clobTokenIds m = Value token_ids ->
                      forall outs, outcomes m <> Value outs)) \/
  (exists token_ids outs,
      clobTokenIds m = Value token_ids /\ outcomes m = Value outs /\
      wrong_sides token_ids outs = true /\
      st' = skip st (SkipSides (get_slug m) (List.length token_ids))) \/
  (exists token_ids outs iso end_ts hists n0 n1,
      clobTokenIds m = Value token_ids /\ outcomes m = Value outs /\
      List.length token_ids = 2%nat /\ List.length outs = 2%nat /\
      endDate m = Some iso /\ iso_to_ts fromisoformat iso = Ok end_ts /\
      mapM (fun tid => prices tid (end_ts - 900) end_ts) token_ids = Ok hists /\
      let st2 := emit (emit st (map (fun tid => Fetch tid (end_ts - 900) end_ts)
                                    token_ids))
                      [Points (get_slug m) n0 n1] in
      (find_trigger T outs hists = Ok None /\ st' = emit st2 [NoTrigger]) \/
      (exists tr,
          find_trigger T outs hists = Ok (Some tr) /\
          st' = append_trade
                  (emit st2 [TradeLine (side tr) (price tr) (resolved_outcome m)
                                       (pnl_of F (won_of tr (resolved_outcome m))
                                               (price tr))
                                       (end_ts - time tr)])
                  (make_trade F (get_slug m) tr (resolved_outcome m) end_ts))).
Proof.
  unfold process_market, parse_sides. intro H.
  destruct (clobTokenIds m) as [| |token_ids] eqn:Et; simpl in H;
    try (left; inversion H; split; [reflexivity | intros ? E; discriminate E]).
  destruct (outcomes m) as [| |outs] eqn:Eo; simpl in H;
    try (left; inversion H; split; [reflexivity | intros ? _ ? E; discriminate E]).
  right.
  destruct (wrong_sides token_ids outs) eqn:Ew.
  - left. exists token_ids, outs. inversion H.
    split; [reflexivity|]. split; [reflexivity|]. split; [exact Ew | reflexivity].
  - right.
    unfold wrong_sides in Ew. apply orb_false_iff in Ew. destruct Ew as [E1 E2].
    apply negb_false_iff in E1, E2. apply Nat.eqb_eq in E1, E2.
    unfold get_endDate in H. destruct (endDate m) as [iso|] eqn:Ed;
      simpl in H; [|discriminate].
    destruct (iso_to_ts fromisoformat iso) as [end_ts|] eqn:Ets;
      simpl in H; [|discriminate].
    destruct (mapM (fun tid => prices tid (end_ts - 900) end_ts) token_ids)
      as [hists|] eqn:Eh; simpl in H; [|discriminate].
    destruct (index hists 0) as [h0|] eqn:E0; simpl in H; [|discriminate].
    destruct (index hists 1) as [h1|] eqn:E1'; simpl in H; [|discriminate].
    exists token_ids, outs, iso, end_ts, hists, (List.length h0), (List.length h1).
    repeat (split; [first [reflexivity | assumption]|]).
    cbv zeta.
    destruct (find_trigger T outs hists) as [[tr|]|] eqn:Ef; simpl in H;
      [| |discriminate].
    + right. exists tr. inversion H. split; reflexivity.
    + left. inversion H. split; reflexivity.
Qed.

Lemma count_app {A : Type} (f : A -> bool) (l l' : list A) :
  count f (l ++ l') = (count f l + count f l')%nat.
Proof. unfold count. rewrite filter_app, length_app. reflexivity. Qed.

Lemma count_fetch_requests (l : list string) (a b : Z) :
  count is_fetch (map (fun tid => Fetch tid a b) l) = List.length l.
Proof.
  unfold count. induction l as [|x rest IH]; simpl; [reflexivity|].
  rewrite IH. reflexivity.
Qed.

Lemma count_other_requests (f : event -> bool) (l : list string) (a b : Z) :
  (forall tid, f (Fetch tid a b) = false) ->
  count f (map (fun tid => Fetch tid a b) l) = O.
Proof.
  intro Hf. unfold count. induction l as [|x rest IH]; simpl; [reflexivity|].
  rewrite Hf. exact IH.
Qed.

Lemma Forall_requests (P : event -> Prop) (l : list string) (a b : Z) :
  (forall tid, P (Fetch tid a b)) ->
  Forall P (map (fun tid => Fetch tid a b) l).
Proof.
  intro HP. induction l as [|x rest IH]; simpl; constructor; auto.
Qed.

Lemma pnl_of_bound (T F p : Q) (b : bool) :
  (T <= p)%Q -> (pnl_of F b p <= 1 - T - F)%Q.
Proof. intro H. unfold pnl_of. destruct b; lra. Qed.

Lemma balanced_init (T F : Q) : balanced T F O init.
Proof. split; simpl; try reflexivity; try lia; constructor. Qed.

Lemma count_one {A : Type} (f : A -> bool) (a : A) :
  count f [a] = if f a then 1%nat else O.
Proof. unfold count. simpl. destruct (f a); reflexivity. Qed.

Ltac books :=
  cbn [skip emit append_trade log trades skipped];
  rewrite ?count_app, ?length_app, ?count_one;
  cbn [is_no_trigger is_fetch is_trade_line List.length].

Lemma balanced_step (T F : Q) (fromisoformat : string -> result Z)
      (prices : string -> Z -> Z -> result (list Tick))
      (n : nat) (st st' : State) (m : Market) :
  balanced T F n st ->
  process_market T F fromisoformat prices st m = Ok st' ->
  balanced T F (S n) st'.
Proof.
  intros [Hc Hs Hf Hw Hl Htl Ht] H.
  assert (HS : Z.of_nat (S n) = Z.of_nat n + 1) by lia.
  assert (Hskip : forall e, is_no_trigger e = false -> is_fetch e = false ->
                            is_trade_line e = false ->
                            balanced T F (S n) (skip st e)).
  { intros e E1 E2 E3.
    split; rewrite ?HS; books; rewrite ?E1, ?E2, ?E3; try lia; try assumption.
    - apply Forall_app. split; [assumption|]. constructor; [|constructor].
      destruct e; simpl in *; try exact I; discriminate.
    - apply Forall_app. split; [assumption|]. constructor; [|constructor].
      destruct e; simpl in *; try exact I; discriminate. }
  destruct (process_market_inv _ _ _ _ _ _ _ H)
    as [[E _] | [[tk [os [_ [_ [_ E]]]]] |
                 [tk [os [iso [end_ts [hists [n0 [n1 Hrun]]]]]]]]].
  - subst st'. apply Hskip; reflexivity.
  - subst st'. apply Hskip; reflexivity.
  - destruct Hrun as [_ [_ [Hlen [_ [_ [_ [_ Hrun]]]]]]]. cbv zeta in Hrun.
    assert (Hreq : count is_fetch
                         (map (fun tid => Fetch tid (end_ts - 900) end_ts) tk) = 2%nat)
      by (rewrite count_fetch_requests; exact Hlen).
    assert (Hreq1 : count is_no_trigger
                          (map (fun tid => Fetch tid (end_ts - 900) end_ts) tk) = O)
      by (apply count_other_requests; reflexivity).
    assert (Hreq2 : count is_trade_line
                          (map (fun tid => Fetch tid (end_ts - 900) end_ts) tk) = O)
      by (apply count_other_requests; reflexivity).
    assert (Hreqw : Forall fetch_window_ok
                           (map (fun tid => Fetch tid (end_ts - 900) end_ts) tk))
      by (apply Forall_requests; intro; simpl; lia).
    assert (Hreql : Forall (trade_line_ok T F)
                           (map (fun tid => Fetch tid (end_ts - 900) end_ts) tk))
      by (apply Forall_requests; intro; exact I).
    destruct Hrun as [[_ E] | [tr [Hfind E]]]; subst st'.
    + split; rewrite ?HS; books; rewrite ?Hreq, ?Hreq1, ?Hreq2;
        try lia; try assumption.
      * repeat (apply Forall_app; split); try assumption;
          repeat constructor.
      * repeat (apply Forall_app; split); try assumption;
          repeat constructor.
    + destruct (find_trigger_sound _ _ _ _ Hfind) as [hist [p [_ [_ [_ [_ [_ Hge]]]]]]].
      split; rewrite ?HS; books; rewrite ?Hreq, ?Hreq1, ?Hreq2;
        try lia; try assumption.
      * repeat (apply Forall_app; split); try assumption;
          repeat constructor.
      * repeat (apply Forall_app; split); try assumption;
          repeat constructor; try assumption.
        apply pnl_of_bound. exact Hge.
      * apply Forall_app. split; [assumption|]. constructor; [|constructor].
        exists (get_slug m), tr, end_ts. split; [reflexivity | exact Hge].
Qed.

Lemma balanced_loop (T F : Q) (fromisoformat : string -> result Z)
      (prices : string -> Z -> Z -> result (list Tick)) (ms : list Market) :
  forall (n : nat) (st st' : State),
    balanced T F n st ->
    run_loop T F fromisoformat prices st ms = Ok st' ->
    balanced T F (n + List.length ms) st'.
Proof.
  induction ms as [|m rest IH]; intros n st st' Hb H; simpl in H.
  - inversion H. subst. rewrite Nat.add_0_r. exact Hb.
  - destruct (process_market T F fromisoformat prices st m) as [st1|] eqn:E;
      simpl in H; [|discriminate].
    replace (n + List.length (m :: rest))%nat with (S n + List.length rest)%nat
      by (simpl; lia).
    apply (IH (S n) st1 st'); [|exact H].
    exact (balanced_step _ _ _ _ _ _ _ _ Hb E).
Qed.

(** A report comes from a completed loop over the closed markets. *)
Lemma run_inv (T F : Q) (fromisoformat : string -> result Z)
      (prices : string -> Z -> Z -> result (list Tick))
      (mkts : list Market) (r : Report) :
  run T F fromisoformat prices mkts = Ok (Some r) ->
  exists st,
    run_loop T F fromisoformat prices init (filter closed mkts) = Ok st /\
    markets_scanned r = List.length (filter closed mkts) /\
    skipped_bad_data r = skipped st /\
    n_trades r = List.length (trades st) /\
    n_wins r = count is_win (trades st) /\
    report_trades r = trades st /\
    report_log r = log st.
Proof.
  unfold run. intro H.
  destruct (nonempty mkts); [|discriminate].
  destruct (run_loop T F fromisoformat prices init (filter closed mkts))
    as [st|] eqn:E; simpl in H; [|discriminate].
  rewrite summary_ok in H. simpl in H. inversion H. subst r. clear H.
  exists st. simpl. repeat split; reflexivity.
Qed.

Lemma run_balanced (T F : Q) (fromisoformat : string -> result Z)
      (prices : string -> Z -> Z -> result (list Tick))
      (mkts : list Market) (r : Report) :
  run T F fromisoformat prices mkts = Ok (Some r) ->
  exists st,
    balanced T F (markets_scanned r) st /\
    skipped_bad_data r = skipped st /\
    n_trades r = List.length (trades st) /\
    n_wins r = count is_win (trades st) /\
    report_trades r = trades st /\
    report_log r = log st.
Proof.
  intro H. destruct (run_inv _ _ _ _ _ _ H) as [st [Hl [Hm Hrest]]].
  exists st. split; [|exact Hrest].
  rewrite Hm. exact (balanced_loop _ _ _ _ _ O init st (balanced_init T F) Hl).
Qed.

(** Every closed market ends in exactly one of three ways when [run]
    completes: it is counted as skipped, it gives a trade, or it gives a
    no-trigger line; and only the closed markets are scanned. *)
Theorem run_accounts_for_every_market
        (T F : Q) (fromisoformat : string -> result Z)
        (prices : string -> Z -> Z -> result (list Tick))
        (mkts : list Market) (r : Report)
        (H : run T F fromisoformat prices mkts = Ok (Some r)) :
  markets_scanned r = count closed mkts /\
  0 <= skipped_bad_data r /\
  skipped_bad_data r + Z.of_nat (n_trades r)
  + Z.of_nat (count is_no_trigger (report_log r))
  = Z.of_nat (markets_scanned r).
Proof.
  destruct (run_inv _ _ _ _ _ _ H) as [_ [_ [Hm _]]].
  destruct (run_balanced _ _ _ _ _ _ H) as [st [Hb [Hs [Hn [_ [_ Hlog]]]]]].
  destruct Hb as [Hc Hpos _ _ _ _ _].
  rewrite Hs, Hn, Hlog. repeat split; assumption.
Qed.

(** A completed [run] asked the price source exactly twice for every closed
    market it did not skip, each time for a window of 900 seconds. *)
Theorem run_requests_two_windows_per_market
        (T F : Q) (fromisoformat : string -> result Z)
        (prices : string -> Z -> Z -> result (list Tick))
        (mkts : list Market) (r : Report)
        (H : run T F fromisoformat prices mkts = Ok (Some r)) :
  Z.of_nat (count is_fetch (report_log r))
  = 2 * (Z.of_nat (markets_scanned r) - skipped_bad_data r) /\
  Forall fetch_window_ok (report_log r).
Proof.
  destruct (run_balanced _ _ _ _ _ _ H) as [st [Hb [Hs [_ [_ [_ Hlog]]]]]].
  destruct Hb as [_ _ Hf Hw _ _ _].
  rewrite Hs, Hlog. split; assumption.
Qed.

(** Every trade line of a completed [run] was entered at a price at or
    above the threshold, carries the payoff of that price, and makes at most
    [1 - THRESHOLD - FEE]; there is one trade line per trade record. *)
Theorem run_trade_lines_respect_threshold
        (T F : Q) (fromisoformat : string -> result Z)
        (prices : string -> Z -> Z -> result (list Tick))
        (mkts : list Market) (r : Report)
        (H : run T F fromisoformat prices mkts = Ok (Some r)) :
  Forall (trade_line_ok T F) (report_log r) /\
  count is_trade_line (report_log r) = n_trades r.
Proof.
  destruct (run_balanced _ _ _ _ _ _ H) as [st [Hb [_ [Hn [_ [_ Hlog]]]]]].
  destruct Hb as [_ _ _ _ Hl Htl _].
  rewrite Hn, Hlog. split; assumption.
Qed.

Lemma count_le_of_imp {A : Type} (f g : A -> bool) (l : list A) :
  Forall (fun a => f a = true -> g a = true) l ->
  (count f l <= count g l)%nat.
Proof.
  unfold count. induction 1 as [|a rest Ha _ IH]; simpl; [lia|].
  destruct (f a) eqn:Ef.
  - rewrite (Ha eq_refl). simpl. lia.
  - destruct (g a); simpl; lia.
Qed.

Lemma trade_ok_win_is_won (T F : Q) (t : Trade) :
  (0 <= T + F)%Q -> trade_ok T F t -> is_win t = true -> trade_won t = true.
Proof.
  intros HTF [s [tr [end_ts [Ht Hge]]]] Hwin.
  remember (trade_winner t) as w eqn:Ew. subst t.
  unfold is_win in Hwin. cbn [make_trade trade_pnl trade_won] in *.
  destruct (won_of tr w) eqn:Ewon; [reflexivity|].
  exfalso.
  assert (Hle : (py_round (pnl_of F false (price tr)) 4 <= 0)%Q).
  { apply py_round_nonpos. unfold pnl_of. lra. }
  apply Qltb_iff in Hwin. lra.
Qed.

(** With [THRESHOLD + FEE >= 0], every trade the summary counts as a win
    ([pnl > 0]) carries [won = true]: the win count never exceeds the number
    of trades on the resolved winner. *)
Theorem counted_win_is_won
        (T F : Q) (fromisoformat : string -> result Z)
        (prices : string -> Z -> Z -> result (list Tick))
        (mkts : list Market) (r : Report)
        (HTF : (0 <= T + F)%Q)
        (H : run T F fromisoformat prices mkts = Ok (Some r)) :
  Forall (fun t => is_win t = true -> trade_won t = true) (report_trades r) /\
  (n_wins r <= count trade_won (report_trades r))%nat.
Proof.
  destruct (run_balanced _ _ _ _ _ _ H) as [st [Hb [_ [_ [Hw [Htr _]]]]]].
  destruct Hb as [_ _ _ _ _ _ Ht].
  assert (Hall : Forall (fun t => is_win t = true -> trade_won t = true)
                        (trades st)).
  { apply Forall_impl with (2 := Ht). intros t Hok.
    exact (trade_ok_win_is_won T F t HTF Hok). }
  rewrite Hw, Htr. split; [exact Hall|].
  apply count_le_of_imp. exact Hall.
Qed.

(** ** Markets are processed independently *)

Lemma merge_init_r (st : State) : merge st init = st.
Proof.
  destruct st as [ts sk lg]. unfold merge. simpl.
  rewrite !app_nil_r, Z.add_0_r. reflexivity.
Qed.

Lemma merge_skip (st d : State) (e : event) :
  skip (merge st d) e = merge st (skip d e).
Proof.
  unfold skip, merge. simpl. rewrite app_assoc, Z.add_assoc. reflexivity.
Qed.

Lemma merge_emit (st d : State) (es : list event) :
  emit (merge st d) es = merge st (emit d es).
Proof. unfold emit, merge. simpl. rewrite app_assoc. reflexivity. Qed.

Lemma merge_append_trade (st d : State) (t : Trade) :
  append_trade (merge st d) t = merge st (append_trade d t).
Proof. unfold append_trade, merge. simpl. rewrite app_assoc. reflexivity. Qed.

Lemma process_market_shift (T F : Q) (fromisoformat : string -> result Z)
      (prices : string -> Z -> Z -> result (list Tick))
      (st d : State) (m : Market) :
  process_market T F fromisoformat prices (merge st d) m =
  match process_market T F fromisoformat prices d m with
  | Ok d' => Ok (merge st d')
  | Raise e => Raise e
  end.
Proof.
  unfold process_market.
  destruct (parse_sides m) as [[tk os]|];
    [|rewrite merge_skip; reflexivity].
  destruct (wrong_sides tk os); [rewrite merge_skip; reflexivity|].
  destruct (get_endDate m) as [iso|]; simpl; [|reflexivity].
  destruct (iso_to_ts fromisoformat iso) as [end_ts|]; simpl; [|reflexivity].
  destruct (mapM (fun tid => prices tid (end_ts - 900) end_ts) tk) as [hists|];
    simpl; [|reflexivity].
  destruct (index hists 0); simpl; [|reflexivity].
  destruct (index hists 1); simpl; [|reflexivity].
  destruct (find_trigger T os hists) as [[tr|]|]; simpl; [| |reflexivity].
  - rewrite !merge_emit, merge_append_trade. reflexivity.
  - rewrite !merge_emit. reflexivity.
Qed.

Lemma run_loop_shift (T F : Q) (fromisoformat : string -> result Z)
      (prices : string -> Z -> Z -> result (list Tick))
      (st : State) (ms : list Market) :
  forall d : State,
    run_loop T F fromisoformat prices (merge st d) ms =
    match run_loop T F fromisoformat prices d ms with
    | Ok d' => Ok (merge st d')
    | Raise e => Raise e
    end.
Proof.
  induction ms as [|m rest IH]; intro d; simpl; [reflexivity|].
  rewrite process_market_shift.
  destruct (process_market T F fromisoformat prices d m) as [d'|]; simpl;
    [apply IH | reflexivity].
Qed.

(** The loop over two lists of markets, one after the other, is the loop
    over each list on its own with the results put together: the trades and
    log lines of the second follow those of the first, the skip counters add
    up, and the first exception met is the one raised. *)
Theorem run_loop_concat
        (T F : Q) (fromisoformat : string -> result Z)
        (prices : string -> Z -> Z -> result (list Tick))
        (ms1 ms2 : list Market) :
  run_loop T F fromisoformat prices init (ms1 ++ ms2) =
  match run_loop T F fromisoformat prices init ms1 with
  | Ok s1 =>
      match run_loop T F fromisoformat prices init ms2 with
      | Ok s2 => Ok (merge s1 s2)
      | Raise e => Raise e
      end
  | Raise e => Raise e
  end.
Proof.
  rewrite run_loop_app.
  destruct (run_loop T F fromisoformat prices init ms1) as [s1|]; simpl;
    [|reflexivity].
  rewrite <- (merge_init_r s1) at 1. apply run_loop_shift.
Qed.

(** ** Skips and uncaught errors *)

(** A market whose [clobTokenIds] or [outcomes] key is absent, or holds text
    that [json.loads] rejects, is counted as skipped with a SKIP line; no
    price is requested, no trade is recorded, and the loop goes on. *)
Theorem bad_json_is_skipped
        (T F : Q) (fromisoformat : string -> result Z)
        (prices : string -> Z -> Z -> result (list Tick))
        (st : State) (m : Market) (ms : list Market)
        (Hbad : (clobTokenIds m = Missing \/ clobTokenIds m = Malformed) \/
                (outcomes m = Missing \/ outcomes m = Malformed)) :
  process_market T F fromisoformat prices st m
  = Ok (skip st (SkipBadJson (get_slug m))) /\
  run_loop T F fromisoformat prices st (m :: ms)
  = run_loop T F fromisoformat prices (skip st (SkipBadJson (get_slug m))) ms.
Proof.
  assert (Hp : process_market T F fromisoformat prices st m
               = Ok (skip st (SkipBadJson (get_slug m)))).
  { unfold process_market, parse_sides.
    destruct Hbad as [[E|E]|[E|E]]; rewrite E; simpl; try reflexivity;
      destruct (clobTokenIds m); reflexivity. }
  split; [exact Hp|]. simpl. rewrite Hp. reflexivity.
Qed.

(** After the two-sides check the loop body has no handler: when the
    [endDate] key is absent ([KeyError]), or when the price request for the
    first token, or for the second after the first succeeded, raises, the
    loop raises that exception and the markets that follow are not
    processed. *)
Theorem uncaught_errors_abort_loop
        (T F : Q) (fromisoformat : string -> result Z)
        (prices : string -> Z -> Z -> result (list Tick))
        (st : State) (m : Market) (ms : list Market)
        (t0 t1 o0 o1 : string) (e : exn)
        (Ht : clobTokenIds m = Value [t0; t1])
        (Ho : outcomes m = Value [o0; o1])
        (Hfail :
           (endDate m = None /\ e = KeyError) \/
           (exists iso end_ts,
               endDate m = Some iso /\ iso_to_ts fromisoformat iso = Ok end_ts /\
               (prices t0 (end_ts - 900) end_ts = Raise e \/
                (exists h0, prices t0 (end_ts - 900) end_ts = Ok h0) /\
                prices t1 (end_ts - 900) end_ts = Raise e))) :
  process_market T F fromisoformat prices st m = Raise e /\
  run_loop T F fromisoformat prices st (m :: ms) = Raise e.
Proof.
  assert (Hp : process_market T F fromisoformat prices st m = Raise e).
  { unfold process_market, parse_sides. rewrite Ht, Ho. simpl.
    unfold get_endDate.
    destruct Hfail as [[Hd He] | [iso [end_ts [Hd [Hts Hpr]]]]].
    - rewrite Hd, He. reflexivity.
    - rewrite Hd. simpl. rewrite Hts. simpl.
      destruct Hpr as [E | [[h0 E0] E1]].
      + rewrite E. reflexivity.
      + rewrite E0. simpl. rewrite E1. reflexivity. }
  split; [exact Hp|]. simpl. rewrite Hp. reflexivity.
Qed.

(** [run] on an empty market list returns before the loop, without a
    summary; on a non-empty list without any closed market it prints the
    summary of an empty run: nothing scanned, skipped or traded, and nothing
    asked of the price source. *)
Theorem run_without_closed_markets
        (T F : Q) (fromisoformat : string -> result Z)
        (prices : string -> Z -> Z -> result (list Tick)) :
  run T F fromisoformat prices [] = Ok None /\
  (forall mkts : list Market,
      mkts <> [] ->
      Forall (fun m => closed m = false) mkts ->
      exists r,
        run T F fromisoformat prices mkts = Ok (Some r) /\
        markets_scanned r = O /\ skipped_bad_data r = 0 /\
        n_trades r = O /\ report_log r = [] /\
        win_rate_pct r = 0%Q /\ avg_pnl r = 0%Q).
Proof.
  split; [reflexivity|].
  intros mkts Hne Hall.
  assert (Hf : filter closed mkts = []).
  { clear Hne. induction Hall as [|m rest Hm _ IH]; simpl; [reflexivity|].
    rewrite Hm. exact IH. }
  unfold run. destruct mkts as [|m rest]; [contradiction|].
  cbn [nonempty]. rewrite Hf. simpl.
  eexists. split; [reflexivity|]. simpl. repeat split; reflexivity.
Qed.

(** * Properties of the discovery loop *)

Lemma offsets_from_S (o ps : Z) (n : nat) :
  offsets_from o ps (S n) = o :: offsets_from (o + ps) ps n.
Proof.
  unfold offsets_from. rewrite <- cons_seq. simpl.
  f_equal; [lia|].
  rewrite <- seq_shift, map_map. apply map_ext. intro i. lia.
Qed.

Lemma nonempty_app_l {A : Type} (l l' : list A) :
  l <> [] -> nonempty (l ++ l') = true.
Proof. destruct l; [contradiction | reflexivity]. Qed.

Lemma nonempty_false {A : Type} (l : list A) : nonempty l = false -> l = [].
Proof. destruct l; [reflexivity | discriminate]. Qed.

(** The requests and the result of the loop, from any of its states. *)
Lemma fetch_pages_trace (get_markets : Z -> Z -> result (list Market)) (ps : Z) :
  forall (k : nat) (acc : list Market) (o ep : Z) (asked : list Z) (sc : Scan),
    fetch_pages get_markets k ps acc o ep asked = Ok sc ->
    exists n : nat,
      (n <= k)%nat /\
      requested sc = asked ++ offsets_from o ps n /\
      found sc = acc ++ flat_map (hits_at get_markets ps) (offsets_from o ps n).
Proof.
  induction k as [|k IH]; intros acc o ep asked sc H; simpl in H.
  - inversion H. exists O. simpl. rewrite !app_nil_r. repeat split; lia.
  - destruct (get_markets ps o) as [batch|] eqn:Eg; simpl in H; [|discriminate].
    assert (Hh : hits_at get_markets ps o = filter is_hit batch)
      by (unfold hits_at; rewrite Eg; reflexivity).
    assert (Hone : forall sc',
               sc' = {| found := acc ++ filter is_hit batch;
                        requested := asked ++ [o] |} ->
               exists n : nat,
                 (n <= S k)%nat /\
                 requested sc' = asked ++ offsets_from o ps n /\
                 found sc' = acc ++ flat_map (hits_at get_markets ps)
                                             (offsets_from o ps n)).
    { intros sc' E. subst sc'. exists 1%nat. rewrite offsets_from_S. simpl.
      rewrite Hh, app_nil_r. repeat split; lia. }
    assert (Hmore : forall ep',
               fetch_pages get_markets k ps (acc ++ filter is_hit batch)
                           (o + ps) ep' (asked ++ [o]) = Ok sc ->
               exists n : nat,
                 (n <= S k)%nat /\
                 requested sc = asked ++ offsets_from o ps n /\
                 found sc = acc ++ flat_map (hits_at get_markets ps)
                                            (offsets_from o ps n)).
    { intros ep' H'. destruct (IH _ _ _ _ _ H') as [n [Hn [Hr Hf]]].
      exists (S n). rewrite offsets_from_S. simpl. rewrite Hh.
      split; [lia|]. split.
      - rewrite Hr, <- app_assoc. reflexivity.
      - rewrite Hf, <- !app_assoc. reflexivity. }
    destruct (nonempty batch) eqn:Eb.
    + destruct (nonempty (filter is_hit batch)) eqn:Ehits.
      * exact (Hmore _ H).
      * destruct (nonempty (acc ++ filter is_hit batch) && (3 <=? ep + 1)).
        -- inversion H. apply Hone. reflexivity.
        -- exact (Hmore _ H).
    + apply nonempty_false in Eb. subst batch. inversion H.
      apply Hone. simpl. rewrite app_nil_r. reflexivity.
Qed.

(** The discovery asks for the offsets 0, [page_size], 2 [page_size], ... of
    at most [max_pages] pages, and returns exactly the hits of the pages it
    asked for, page after page. *)
Theorem fetch_returns_hits_of_requested_pages
        (get_markets : Z -> Z -> result (list Market))
        (max_pages page_size : Z) (sc : Scan)
        (H : fetch_btc15m_markets get_markets max_pages page_size = Ok sc) :
  exists n : nat,
    (n <= Z.to_nat max_pages)%nat /\
    requested sc = page_offsets page_size n /\
    found sc = flat_map (hits_at get_markets page_size) (requested sc).
Proof.
  destruct (fetch_pages_trace _ _ _ _ _ _ _ _ H) as [n [Hn [Hr Hf]]].
  exists n. simpl in Hr, Hf. rewrite Hr. repeat split; assumption.
Qed.

(** Every market the discovery returns has a slug, and the slug starts with
    [SLUG_PREFIX]. *)
Theorem fetch_returns_only_prefixed_slugs
        (get_markets : Z -> Z -> result (list Market))
        (max_pages page_size : Z) (sc : Scan)
        (H : fetch_btc15m_markets get_markets max_pages page_size = Ok sc) :
  Forall (fun m => exists s, slug m = Some s /\ String.prefix SLUG_PREFIX s = true)
         (found sc).
Proof.
  destruct (fetch_pages_trace _ _ _ _ _ _ _ _ H) as [n [_ [_ Hf]]].
  simpl in Hf. rewrite Hf. apply Forall_forall. intros m Hin.
  apply in_flat_map in Hin. destruct Hin as [off [_ Hin]].
  unfold hits_at in Hin. destruct (get_markets page_size off); [|contradiction].
  apply filter_In in Hin. destruct Hin as [_ Hhit].
  unfold is_hit in Hhit. destruct (slug m) as [s|].
  - exists s. split; [reflexivity | exact Hhit].
  - discriminate.
Qed.

Lemma fetch_pages_stop_at_empty (get_markets : Z -> Z -> result (list Market)) (ps : Z) :
  forall (i k : nat) (acc : list Market) (o ep : Z) (asked : list Z) (sc : Scan),
    get_markets ps (o + Z.of_nat i * ps) = Ok [] ->
    fetch_pages get_markets k ps acc o ep asked = Ok sc ->
    (List.length (requested sc) <= List.length asked + i + 1)%nat.
Proof.
  induction i as [|i IH]; intros k acc o ep asked sc He H;
    (destruct k as [|k]; simpl in H; [inversion H; simpl; lia|]).
  - replace (o + Z.of_nat 0 * ps) with o in He by lia.
    rewrite He in H. simpl in H. inversion H. simpl.
    rewrite length_app. simpl. lia.
  - replace (o + Z.of_nat (S i) * ps) with ((o + ps) + Z.of_nat i * ps) in He by lia.
    destruct (get_markets ps o) as [batch|]; simpl in H; [|discriminate].
    assert (Hmore : forall acc' ep',
               fetch_pages get_markets k ps acc' (o + ps) ep' (asked ++ [o]) = Ok sc ->
               (List.length (requested sc) <= List.length asked + S i + 1)%nat).
    { intros acc' ep' H'. pose proof (IH _ _ _ _ _ _ He H') as Hle.
      rewrite length_app in Hle. simpl in Hle. lia. }
    destruct (nonempty batch);
      [|inversion H; simpl; rewrite length_app; simpl; lia].
    destruct (nonempty (filter is_hit batch)); [exact (Hmore _ _ H)|].
    destruct (nonempty (acc ++ filter is_hit batch) && (3 <=? ep + 1));
      [inversion H; simpl; rewrite length_app; simpl; lia | exact (Hmore _ _ H)].
Qed.

Lemma fetch_pages_streak (get_markets : Z -> Z -> result (list Market)) (ps : Z) :
  forall (c k : nat) (acc : list Market) (o ep : Z) (asked : list Z) (sc : Scan),
    acc <> [] ->
    3 <= ep + Z.of_nat (S c) ->
    (forall i : nat, (i <= c)%nat ->
                     hits_at get_markets ps (o + Z.of_nat i * ps) = []) ->
    fetch_pages get_markets k ps acc o ep asked = Ok sc ->
    (List.length (requested sc) <= List.length asked + S c)%nat.
Proof.
  induction c as [|c IH]; intros k acc o ep asked sc Hacc Hep Hno H;
    (destruct k as [|k]; simpl in H; [inversion H; simpl; lia|]);
    pose proof (Hno O ltac:(lia)) as H0;
    replace (o + Z.of_nat 0 * ps) with o in H0 by lia;
    unfold hits_at in H0;
    (destruct (get_markets ps o) as [batch|]; simpl in H; [|discriminate]);
    rewrite H0 in H; simpl in H;
    (destruct (nonempty batch);
     [|inversion H; simpl; rewrite length_app; simpl; lia]);
    rewrite app_nil_r in H;
    (destruct acc as [|a acc]; [contradiction|]);
    simpl in H.
  - assert (E : (3 <=? ep + 1) = true) by (apply Z.leb_le; lia).
    rewrite E in H. inversion H. simpl. rewrite length_app. simpl. lia.
  - destruct (3 <=? ep + 1);
      [inversion H; simpl; rewrite length_app; simpl; lia|].
    assert (Hle : (List.length (requested sc)
                   <= List.length (asked ++ [o]) + S c)%nat).
    { refine (IH k _ (o + ps) (ep + 1) (asked ++ [o]) sc _ _ _ H).
      - discriminate.
      - lia.
      - intros i Hi.
        replace (o + ps + Z.of_nat i * ps) with (o + Z.of_nat (S i) * ps) by lia.
        apply Hno. lia. }
    rewrite length_app in Hle. simpl in Hle. lia.
Qed.

Lemma fetch_pages_stop_after_hitless
      (get_markets : Z -> Z -> result (list Market)) (ps : Z) :
  forall (i k : nat) (acc : list Market) (o ep : Z) (asked : list Z) (sc : Scan),
    0 <= ep ->
    (acc <> [] \/
     exists j : nat, (j < i)%nat /\
                     hits_at get_markets ps (o + Z.of_nat j * ps) <> []) ->
    (forall d : nat, (d <= 2)%nat ->
                     hits_at get_markets ps (o + Z.of_nat (i + d) * ps) = []) ->
    fetch_pages get_markets k ps acc o ep asked = Ok sc ->
    (List.length (requested sc) <= List.length asked + i + 3)%nat.
Proof.
  induction i as [|i IH]; intros k acc o ep asked sc Hep Hsome Hno H.
  - destruct Hsome as [Hacc | [j [Hj _]]]; [|lia].
    pose proof (fetch_pages_streak get_markets ps 2 k acc o ep asked sc Hacc
                                   ltac:(lia) Hno H).
    lia.
  - destruct k as [|k]; simpl in H; [inversion H; simpl; lia|].
    destruct (get_markets ps o) as [batch|] eqn:Eg; simpl in H; [|discriminate].
    assert (Hh : hits_at get_markets ps o = filter is_hit batch)
      by (unfold hits_at; rewrite Eg; reflexivity).
    assert (Hno' : forall d : nat,
               (d <= 2)%nat ->
               hits_at get_markets ps (o + ps + Z.of_nat (i + d) * ps) = []).
    { intros d Hd.
      replace (o + ps + Z.of_nat (i + d) * ps)
        with (o + Z.of_nat (S i + d) * ps) by lia.
      apply Hno. exact Hd. }
    assert (Hmore : forall ep',
               0 <= ep' ->
               (acc ++ filter is_hit batch <> [] \/
                exists j : nat, (j < i)%nat /\
                                hits_at get_markets ps (o + ps + Z.of_nat j * ps) <> []) ->
               fetch_pages get_markets k ps (acc ++ filter is_hit batch)
                           (o + ps) ep' (asked ++ [o]) = Ok sc ->
               (List.length (requested sc) <= List.length asked + S i + 3)%nat).
    { intros ep' Hep' Hsome' H'.
      pose proof (IH _ _ _ _ _ _ Hep' Hsome' Hno' H') as Hle.
      rewrite length_app in Hle. simpl in Hle. lia. }
    destruct (nonempty batch);
      [|inversion H; simpl; rewrite length_app; simpl; lia].
    destruct (nonempty (filter is_hit batch)) eqn:Ehits.
    + apply (Hmore 0); [lia| |exact H].
      left. destruct (filter is_hit batch); [discriminate|].
      intro E. apply app_eq_nil in E. destruct E as [_ E]. discriminate.
    + destruct (nonempty (acc ++ filter is_hit batch) && (3 <=? ep + 1));
        [inversion H; simpl; rewrite length_app; simpl; lia|].
      apply nonempty_false in Ehits.
      apply (Hmore (ep + 1)); [lia| |exact H].
      destruct Hsome as [Hacc | [j [Hj Hhit]]].
      * left. intro E. apply app_eq_nil in E. destruct E as [E _]. contradiction.
      * destruct j as [|j].
        -- exfalso. apply Hhit.
           replace (o + Z.of_nat 0 * ps) with o by lia.
           rewrite Hh. exact Ehits.
        -- right. exists j. split; [lia|].
           replace (o + ps + Z.of_nat j * ps) with (o + Z.of_nat (S j) * ps) by lia.
           exact Hhit.
Qed.

Lemma fetch_pages_nothing_found
      (get_markets : Z -> Z -> result (list Market)) (ps : Z) :
  forall (k : nat) (o ep : Z) (asked : list Z),
    (forall i : nat,
        (i < k)%nat ->
        exists batch, get_markets ps (o + Z.of_nat i * ps) = Ok batch /\
                      batch <> [] /\ filter is_hit batch = []) ->
    fetch_pages get_markets k ps [] o ep asked
    = Ok {| found := []; requested := asked ++ offsets_from o ps k |}.
Proof.
  induction k as [|k IH]; intros o ep asked Hall; simpl.
  - rewrite app_nil_r. reflexivity.
  - destruct (Hall O ltac:(lia)) as [batch [Eg [Hne Eh]]].
    replace (o + Z.of_nat 0 * ps) with o in Eg by lia.
    rewrite Eg. simpl. rewrite Eh. simpl.
    destruct batch as [|b batch]; [contradiction|]. simpl.
    rewrite offsets_from_S.
    rewrite (IH (o + ps) (ep + 1) (asked ++ [o])).
    + rewrite <- app_assoc. reflexivity.
    + intros i Hi. destruct (Hall (S i) ltac:(lia)) as [bi Hbi].
      exists bi.
      replace (o + ps + Z.of_nat i * ps) with (o + Z.of_nat (S i) * ps) by lia.
      exact Hbi.
Qed.

(** The discovery stops at the first empty batch: when the page of index
    [i] is empty, at most [i + 1] pages are asked for. *)
Theorem fetch_stops_at_empty_batch
        (get_markets : Z -> Z -> result (list Market))
        (max_pages page_size : Z) (i : nat) (sc : Scan)
        (Hempty : get_markets page_size (Z.of_nat i * page_size) = Ok [])
        (H : fetch_btc15m_markets get_markets max_pages page_size = Ok sc) :
  (List.length (requested sc) <= i + 1)%nat.
Proof.
  exact (fetch_pages_stop_at_empty get_markets page_size i _ [] 0 0 [] sc
                                   Hempty H).
Qed.

(** The discovery stops early once it has found something: when a page
    before index [i] has a hit and the pages of index [i], [i + 1] and
    [i + 2] have none, at most [i + 3] pages are asked for. *)
Theorem fetch_stops_after_three_hitless_pages
        (get_markets : Z -> Z -> result (list Market))
        (max_pages page_size : Z) (j i : nat) (sc : Scan)
        (Hj : (j < i)%nat)
        (Hhit : hits_at get_markets page_size (Z.of_nat j * page_size) <> [])
        (Hno : forall d : nat,
            (d <= 2)%nat ->
            hits_at get_markets page_size (Z.of_nat (i + d) * page_size) = [])
        (H : fetch_btc15m_markets get_markets max_pages page_size = Ok sc) :
  (List.length (requested sc) <= i + 3)%nat.
Proof.
  refine (fetch_pages_stop_after_hitless get_markets page_size i _ [] 0 0 [] sc
                                         ltac:(lia) _ _ H).
  - right. exists j. split; [exact Hj | exact Hhit].
  - exact Hno.
Qed.

(** While nothing has been found the hitless pages do not stop the
    discovery: when each of the [max_pages] pages is non-empty and without a
    hit, all of them are asked for and the result is empty. *)
Theorem fetch_scans_every_page_when_nothing_found
        (get_markets : Z -> Z -> result (list Market))
        (max_pages page_size : Z)
        (Hall : forall i : nat,
            (i < Z.to_nat max_pages)%nat ->
            exists batch,
              get_markets page_size (Z.of_nat i * page_size) = Ok batch /\
              batch <> [] /\ filter is_hit batch = []) :
  fetch_btc15m_markets get_markets max_pages page_size
  = Ok {| found := [];
          requested := page_offsets page_size (Z.to_nat max_pages) |}.
Proof.
  exact (fetch_pages_nothing_found get_markets page_size
                                   (Z.to_nat max_pages) 0 0 [] Hall).
Qed.

(** * Properties of [run] with its discovery *)

Lemma fetch_pages_first_empty (get_markets : Z -> Z -> result (list Market))
      (k : nat) (ps : Z) (acc : list Market) (o ep : Z) (asked : list Z) :
  get_markets ps o = Ok [] ->
  fetch_pages get_markets (S k) ps acc o ep asked
  = Ok {| found := acc; requested := asked ++ [o] |}.
Proof. intro E. simpl. rewrite E. reflexivity. Qed.

Lemma fetch_pages_first_raises (get_markets : Z -> Z -> result (list Market))
      (k : nat) (ps : Z) (acc : list Market) (o ep : Z) (asked : list Z) (e : exn) :
  get_markets ps o = Raise e ->
  fetch_pages get_markets (S k) ps acc o ep asked = Raise e.
Proof. intro E. simpl. rewrite E. reflexivity. Qed.

(** When the first page of the listing is empty, [run] ends without a
    summary; when the request for it fails, [run] raises that error.  No
    price is requested in either case. *)
Theorem run_all_without_first_page
        (T F : Q) (fromisoformat : string -> result Z)
        (prices : string -> Z -> Z -> result (list Tick))
        (get_markets : Z -> Z -> result (list Market)) :
  (get_markets 200 0 = Ok [] ->
   run_all T F fromisoformat prices get_markets = Ok None) /\
  (forall e, get_markets 200 0 = Raise e ->
             run_all T F fromisoformat prices get_markets = Raise e).
Proof.
  unfold run_all, fetch_btc15m_markets.
  replace (Z.to_nat 50) with (S (Z.to_nat 49)) by reflexivity.
  split.
  - intro E. rewrite (fetch_pages_first_empty _ _ _ _ _ _ _ E). reflexivity.
  - intros e E. rewrite (fetch_pages_first_raises _ _ _ _ _ _ _ _ E). reflexivity.
Qed.

(** * Properties of [iso_to_ts] *)

Lemma replace_Z_app (a b : string) :
  replace_Z (a ++ b) = (replace_Z a ++ replace_Z b)%string.
Proof.
  induction a as [|c a IH]; simpl; [reflexivity|].
  rewrite IH. destruct (Ascii.eqb c "Z"); reflexivity.
Qed.

Lemma replace_Z_without_Z (s : string) :
  ~ In "Z"%char (list_ascii_of_string s) -> replace_Z s = s.
Proof.
  induction s as [|c s IH]; simpl; intro H; [reflexivity|].
  destruct (Ascii.eqb c "Z") eqn:E.
  - apply Ascii.eqb_eq in E. exfalso. apply H. left. exact E.
  - rewrite IH; [reflexivity|]. intro Hin. apply H. right. exact Hin.
Qed.

Lemma replace_Z_has_no_Z (s : string) :
  ~ In "Z"%char (list_ascii_of_string (replace_Z s)).
Proof.
  induction s as [|c s IH]; simpl; [intros []|].
  destruct (Ascii.eqb c "Z") eqn:E.
  - simpl. intros [H|[H|[H|[H|[H|[H|H]]]]]]; try discriminate. exact (IH H).
  - simpl. intros [H|H]; [|exact (IH H)].
    apply Ascii.eqb_neq in E. congruence.
Qed.

(** [iso_to_ts] reads a timestamp ending in "Z" as the same timestamp ending
    in "+00:00"; a string without "Z" reaches the parser unchanged; and the
    parser never sees a "Z", wherever it stood in the input. *)
Theorem iso_to_ts_normalises_Z (fromisoformat : string -> result Z) (s : string) :
  iso_to_ts fromisoformat (s ++ "Z") = iso_to_ts fromisoformat (s ++ "+00:00") /\
  (~ In "Z"%char (list_ascii_of_string s) ->
   iso_to_ts fromisoformat s = fromisoformat s) /\
  (exists s', iso_to_ts fromisoformat s = fromisoformat s' /\
              ~ In "Z"%char (list_ascii_of_string s')).
Proof.
  unfold iso_to_ts. split; [|split].
  - rewrite !replace_Z_app. reflexivity.
  - intro H. rewrite (replace_Z_without_Z s H). reflexivity.
  - exists (replace_Z s). split; [reflexivity | apply replace_Z_has_no_Z].
Qed.

(** * Properties of the summary *)

Lemma win_rate_bounds (w n : nat) :
  (w <= n)%nat ->
  (0 <= inject_Z (Z.of_nat w) / inject_Z (Z.max 1 (Z.of_nat n)) * 100 <= 100)%Q.
Proof.
  intro Hle.
  assert (Hd : (0 < inject_Z (Z.max 1 (Z.of_nat n)))%Q).
  { change 0%Q with (inject_Z 0). rewrite <- Zlt_Qlt. lia. }
  assert (H0 : (0 <= inject_Z (Z.of_nat w) / inject_Z (Z.max 1 (Z.of_nat n)))%Q).
  { apply Qle_shift_div_l; [exact Hd|].
    setoid_replace (0 * inject_Z (Z.max 1 (Z.of_nat n)))%Q with (inject_Z 0)
      by (unfold inject_Z; ring).
    rewrite <- Zle_Qle. lia. }
  assert (H1 : (inject_Z (Z.of_nat w) / inject_Z (Z.max 1 (Z.of_nat n)) <= 1)%Q).
  { apply Qle_shift_div_r; [exact Hd|].
    setoid_replace (1 * inject_Z (Z.max 1 (Z.of_nat n)))%Q
      with (inject_Z (Z.max 1 (Z.of_nat n))) by ring.
    rewrite <- Zle_Qle. lia. }
  set (x := (inject_Z (Z.of_nat w) / inject_Z (Z.max 1 (Z.of_nat n)))%Q) in *.
  split; lra.
Qed.

(** The summary counts no more wins than trades, its win rate lies between
    0 and 100, the total PnL and the mean time to expiry are printed exactly
    when there is a trade, and then the average PnL times the number of
    trades is the total PnL. *)
Theorem summary_figures (n_closed : nat) (st : State) :
  exists r,
    summary n_closed st = Ok r /\
    (n_wins r <= n_trades r)%nat /\
    (0 <= win_rate_pct r <= 100)%Q /\
    (total_pnl r = None <-> trades st = []) /\
    (avg_tte r = None <-> trades st = []) /\
    (forall total, total_pnl r = Some total ->
                   (avg_pnl r * inject_Z (Z.of_nat (n_trades r)) == total)%Q).
Proof.
  eexists. split; [apply summary_ok|]. cbn [n_wins n_trades win_rate_pct total_pnl
                                            avg_tte avg_pnl].
  assert (Hw : (List.length (filter is_win (trades st))
                <= List.length (trades st))%nat) by apply filter_length_le.
  split; [exact Hw|].
  split; [unfold count_denominator; apply win_rate_bounds; exact Hw|].
  destruct (trades st) as [|t ts] eqn:E; cbn [nonempty].
  - repeat split; try reflexivity. intros total Ht. discriminate.
  - split; [split; discriminate|]. split; [split; discriminate|].
    intros total Ht. inversion Ht. subst total.
    unfold count_denominator. rewrite E.
    replace (Z.max 1 (Z.of_nat (List.length (t :: ts))))
      with (Z.of_nat (List.length (t :: ts))) by (simpl List.length; lia).
    rewrite Qmult_comm. apply Qmult_div_r.
    apply inject_pos_nonzero. simpl List.length. lia.
Qed.

(** * The resolved winner *)

Lemma mapM_float_ok (entries : list price_entry) :
  forall keys, mapM float entries = Ok keys -> entries = map Some keys.
Proof.
  induction entries as [|e rest IH]; simpl; intros keys H.
  - inversion H. reflexivity.
  - destruct e as [q|]; simpl in H; [|discriminate].
    destruct (mapM float rest) as [ks|]; simpl in H; [|discriminate].
    inversion H. simpl. rewrite (IH ks eq_refl). reflexivity.
Qed.

(** A resolved winner is always one of the market's own labels: both
    sequences decoded, every price is a number, and the winner is the label
    standing at an index whose price exceeds 0.9 and is the greatest. *)
Theorem resolved_winner_is_a_label (m : Market) (l : string)
        (H : resolved_outcome m = Some l) :
  exists (outs : list string) (entries : list price_entry) (i : nat) (v : Q),
    outcomes m = Value outs /\ outcomePrices m = Value entries /\
    nth_error outs i = Some l /\
    nth_error entries i = Some (Some v) /\
    ((9 # 10) < v)%Q /\
    (forall j e, nth_error entries j = Some e ->
                 exists w, e = Some w /\ (w <= v)%Q).
Proof.
  pose proof H as H'. unfold resolved_outcome, resolved_outcome_try in H'.
  destruct (outcomes m) as [| |outs] eqn:Eo; simpl in H';
    try (destruct (outcomePrices m) as [| |es]; simpl in H';
         try rewrite andb_false_r in H'; discriminate).
  destruct (outcomePrices m) as [| |entries] eqn:Ep; simpl in H';
    try discriminate.
  destruct (nonempty entries && nonempty outs) eqn:Ene; [|discriminate].
  apply andb_true_iff in Ene. destruct Ene as [Hne Hno].
  destruct (mapM float entries) as [keys|] eqn:Ek; [|discriminate].
  clear H'. apply mapM_float_ok in Ek. subst entries.
  destruct keys as [|k rest]; [discriminate|].
  destruct (max_index_spec k rest) as [v Hmax].
  assert (Hout : outs <> []) by (destruct outs; [discriminate | discriminate]).
  rewrite (resolved_outcome_at_max m outs (k :: rest) (max_index (k :: rest)) v) in H;
    [| rewrite Eo; reflexivity | rewrite Ep; reflexivity | exact Hout | exact Hmax].
  destruct (Qltb (9 # 10) v) eqn:C; [|discriminate].
  apply Qltb_iff in C.
  exists outs, (map Some (k :: rest)), (max_index (k :: rest)), v.
  destruct Hmax as [Hn [Hall _]].
  repeat split; try assumption.
  - rewrite nth_error_map, Hn. reflexivity.
  - intros j e Hj. rewrite nth_error_map in Hj.
    destruct (nth_error (k :: rest) j) as [w|] eqn:Ej; simpl in Hj; [|discriminate].
    inversion Hj. exists w. split; [reflexivity | exact (Hall j w Ej)].
Qed.

(** * The further properties on the example data *)

(** Without the time order inside a side the trigger need not be the
    earliest qualifying tick. *)
Example unsorted_side_triggers_late :
  find_trigger Config.THRESHOLD ["Up"; "Down"]%string [unsorted_hist; []]
  = Ok (Some {| side := "Up"%string; side_idx := 0;
                price := 98 # 100; time := 1704067400 |}).
Proof. reflexivity. Qed.

Lemma trigger_is_first_hit_of_its_side_witness :
  exists (hist : list Tick) (p : Tick),
    nth_error [up_hist; down_hist] (side_idx down_trigger) = Some hist /\
    first_hit Config.THRESHOLD hist = Some p /\
    nth_error ["Up"; "Down"]%string (side_idx down_trigger)
    = Some (side down_trigger) /\
    price down_trigger = tick_p p /\ time down_trigger = tick_t p /\
    (Config.THRESHOLD <= price down_trigger)%Q.
Proof.
  exact (trigger_is_first_hit_of_its_side
           Config.THRESHOLD ["Up"; "Down"]%string [up_hist; down_hist]
           down_trigger eq_refl).
Defined.

Lemma trigger_is_earliest_qualifying_tick_witness :
  time down_trigger <= tick_t up_first.
Proof.
  assert (Hs : Forall time_sorted [up_hist; down_hist]).
  { unfold time_sorted, up_hist, down_hist.
    repeat (constructor; try (simpl; lia)). }
  apply (trigger_is_earliest_qualifying_tick
           Config.THRESHOLD ["Up"; "Down"]%string [up_hist; down_hist]
           down_trigger Hs eq_refl up_hist up_first).
  - simpl. auto.
  - simpl. auto.
  - vm_compute. discriminate.
Defined.

Lemma run_accounts_for_every_market_witness :
  exists r,
    run Config.THRESHOLD Config.FEE fromisoformat_table prices_table markets_mixed
    = Ok (Some r) /\
    markets_scanned r = 3%nat /\ skipped_bad_data r = 2 /\ n_trades r = 1%nat /\
    skipped_bad_data r + Z.of_nat (n_trades r)
    + Z.of_nat (count is_no_trigger (report_log r))
    = Z.of_nat (markets_scanned r).
Proof.
  eexists. split; [reflexivity|].
  split; [reflexivity|]. split; [reflexivity|]. split; [reflexivity|].
  apply (run_accounts_for_every_market
           Config.THRESHOLD Config.FEE fromisoformat_table prices_table
           markets_mixed).
  reflexivity.
Defined.

Lemma run_requests_two_windows_per_market_witness :
  exists r,
    run Config.THRESHOLD Config.FEE fromisoformat_table prices_table markets_mixed
    = Ok (Some r) /\
    Z.of_nat (count is_fetch (report_log r))
    = 2 * (Z.of_nat (markets_scanned r) - skipped_bad_data r) /\
    Forall fetch_window_ok (report_log r).
Proof.
  eexists. split; [reflexivity|].
  apply (run_requests_two_windows_per_market
           Config.THRESHOLD Config.FEE fromisoformat_table prices_table
           markets_mixed).
  reflexivity.
Defined.

Lemma run_trade_lines_respect_threshold_witness :
  exists r,
    run Config.THRESHOLD Config.FEE fromisoformat_table prices_table markets_mixed
    = Ok (Some r) /\
    Forall (trade_line_ok Config.THRESHOLD Config.FEE) (report_log r) /\
    count is_trade_line (report_log r) = n_trades r.
Proof.
  eexists. split; [reflexivity|].
  apply (run_trade_lines_respect_threshold
           Config.THRESHOLD Config.FEE fromisoformat_table prices_table
           markets_mixed).
  reflexivity.
Defined.

Lemma counted_win_is_won_witness :
  exists r,
    run Config.THRESHOLD Config.FEE fromisoformat_table prices_table markets_mixed
    = Ok (Some r) /\
    Forall (fun t => is_win t = true -> trade_won t = true) (report_trades r) /\
    (n_wins r <= count trade_won (report_trades r))%nat.
Proof.
  eexists. split; [reflexivity|].
  apply (counted_win_is_won
           Config.THRESHOLD Config.FEE fromisoformat_table prices_table
           markets_mixed).
  - vm_compute. discriminate.
  - reflexivity.
Defined.

Lemma bad_json_is_skipped_witness :
  process_market Config.THRESHOLD Config.FEE fromisoformat_table prices_table
                 init market_no_tokens
  = Ok (skip init (SkipBadJson "?")).
Proof.
  apply (proj1 (bad_json_is_skipped
                  Config.THRESHOLD Config.FEE fromisoformat_table prices_table
                  init market_no_tokens [market_ok]
                  (or_introl (or_intror eq_refl)))).
Defined.

Lemma uncaught_errors_abort_loop_witness :
  run_loop Config.THRESHOLD Config.FEE fromisoformat_table prices_failing
           init [market_ok; market_three_sides] = Raise HTTPError.
Proof.
  apply (proj2 (uncaught_errors_abort_loop
                  Config.THRESHOLD Config.FEE fromisoformat_table prices_failing
                  init market_ok [market_three_sides]
                  "tok-up" "tok-down" "Up" "Down" HTTPError eq_refl eq_refl
                  (or_intror
                     (ex_intro _ "2024-01-01T00:15:00Z"%string
                        (ex_intro _ 1704068100
                           (conj eq_refl
                              (conj eq_refl
                                 (or_intror
                                    (conj (ex_intro _ up_hist eq_refl)
                                          eq_refl))))))))).
Defined.

Lemma run_without_closed_markets_witness :
  exists r,
    run Config.THRESHOLD Config.FEE fromisoformat_table prices_table
        [market_open; market_open] = Ok (Some r) /\
    markets_scanned r = O /\ skipped_bad_data r = 0 /\
    n_trades r = O /\ report_log r = [] /\
    win_rate_pct r = 0%Q /\ avg_pnl r = 0%Q.
Proof.
  apply (proj2 (run_without_closed_markets
                  Config.THRESHOLD Config.FEE fromisoformat_table prices_table)
               [market_open; market_open]).
  - discriminate.
  - repeat constructor.
Defined.

Lemma fetch_returns_hits_of_requested_pages_witness :
  exists n : nat,
    (n <= Z.to_nat 50)%nat /\
    requested scan_table = page_offsets 200 n /\
    found scan_table = flat_map (hits_at listing_table 200) (requested scan_table).
Proof.
  exact (fetch_returns_hits_of_requested_pages listing_table 50 200 scan_table
                                               eq_refl).
Defined.

Lemma fetch_returns_only_prefixed_slugs_witness :
  Forall (fun m => exists s, slug m = Some s /\ String.prefix SLUG_PREFIX s = true)
         (found scan_table).
Proof.
  exact (fetch_returns_only_prefixed_slugs listing_table 50 200 scan_table eq_refl).
Defined.

Lemma fetch_stops_at_empty_batch_witness :
  (List.length (requested scan_short) <= 1 + 1)%nat.
Proof.
  exact (fetch_stops_at_empty_batch listing_short 50 200 1 scan_short
                                    eq_refl eq_refl).
Defined.

Lemma fetch_stops_after_three_hitless_pages_witness :
  (List.length (requested scan_table) <= 1 + 3)%nat.
Proof.
  refine (fetch_stops_after_three_hitless_pages
            listing_table 50 200 0 1 scan_table _ _ _ eq_refl).
  - lia.
  - vm_compute. discriminate.
  - intros d Hd. destruct d as [|[|[|d]]]; [reflexivity|reflexivity|reflexivity|lia].
Defined.

Lemma fetch_scans_every_page_when_nothing_found_witness :
  fetch_btc15m_markets listing_others 3 200
  = Ok {| found := []; requested := page_offsets 200 (Z.to_nat 3) |}.
Proof.
  apply (fetch_scans_every_page_when_nothing_found listing_others 3 200).
  intros i Hi. exists [market_other].
  split; [reflexivity|]. split; [discriminate | reflexivity].
Defined.

Lemma run_all_without_first_page_witness :
  run_all Config.THRESHOLD Config.FEE fromisoformat_table prices_table listing_empty
  = Ok None.
Proof.
  apply (proj1 (run_all_without_first_page
                  Config.THRESHOLD Config.FEE fromisoformat_table prices_table
                  listing_empty)).
  reflexivity.
Defined.

Lemma iso_to_ts_normalises_Z_witness :
  iso_to_ts fromisoformat_table "2024-01-01T00:15:00+00:00"
  = fromisoformat_table "2024-01-01T00:15:00+00:00".
Proof.
  apply (proj1 (proj2 (iso_to_ts_normalises_Z
                         fromisoformat_table "2024-01-01T00:15:00+00:00"))).
  vm_compute. intuition discriminate.
Defined.

Lemma summary_figures_witness :
  exists r,
    summary 1 state_one_trade = Ok r /\
    total_pnl r <> None /\
    (forall total, total_pnl r = Some total ->
                   (avg_pnl r * inject_Z (Z.of_nat (n_trades r)) == total)%Q).
Proof.
  destruct (summary_figures 1 state_one_trade) as [r [Hr [_ [_ [Ht [_ Havg]]]]]].
  exists r. split; [exact Hr|]. split; [|exact Havg].
  intro E. apply (proj1 Ht) in E. discriminate E.
Defined.

Lemma resolved_winner_is_a_label_witness :
  exists (outs : list string) (entries : list price_entry) (i : nat) (v : Q),
    outcomes market_ok = Value outs /\ outcomePrices market_ok = Value entries /\
    nth_error outs i = Some "Up"%string /\
    nth_error entries i = Some (Some v) /\
    ((9 # 10) < v)%Q /\
    (forall j e, nth_error entries j = Some e ->
                 exists w, e = Some w /\ (w <= v)%Q).
Proof.
  exact (resolved_winner_is_a_label market_ok "Up" eq_refl).
Defined.

(** * Binary64 arithmetic *)

(** ** Rounding to an integer *)
Lemma floor_bounds (x : Q) :
  (inject_Z (Qfloor x) <= x)%Q /\ (x < inject_Z (Qfloor x) + 1)%Q.
Proof.
  split; [apply Qfloor_le|].
  pose proof (Qlt_floor x) as H. rewrite inject_Z_plus in H. exact H.
Qed.

Lemma rhe_cases (x : Q) :
  let f := Qfloor x in
  let r := (x - inject_Z f)%Q in
  (round_half_even x = f /\ (r <= 1 # 2)%Q) \/
  (round_half_even x = f + 1 /\ (1 # 2 <= r)%Q).
Proof.
  intros f r. unfold round_half_even. fold f. fold r.
  destruct (Qcompare_spec r (1 # 2)) as [E|E|E].
  - destruct (Z.even f); [left|right]; split; try reflexivity; rewrite E; apply Qle_refl.
  - left. split; [reflexivity | apply Qlt_le_weak; exact E].
  - right. split; [reflexivity | apply Qlt_le_weak; exact E].
Qed.

Lemma rhe_mono (x y : Q) : (x <= y)%Q -> round_half_even x <= round_half_even y.
Proof.
  intro Hxy.
  pose proof (Qfloor_resp_le x y Hxy) as Hf.
  destruct (floor_bounds x) as [Hx1 Hx2]. destruct (floor_bounds y) as [Hy1 Hy2].
  destruct (Z.eq_dec (Qfloor x) (Qfloor y)) as [E|NE].
  - unfold round_half_even. rewrite <- E.
    destruct (Qcompare_spec (x - inject_Z (Qfloor x)) (1 # 2)) as [Ex|Ex|Ex];
      destruct (Qcompare_spec (y - inject_Z (Qfloor x)) (1 # 2)) as [Ey|Ey|Ey];
      try (destruct (Z.even (Qfloor x))); try lia; exfalso; lra.
  - assert (Hlt : Qfloor x + 1 <= Qfloor y) by lia.
    destruct (rhe_cases x) as [[E1 _]|[E1 _]]; destruct (rhe_cases y) as [[E2 _]|[E2 _]];
      rewrite E1, E2; lia.
Qed.

Lemma rhe_Z (n : Z) : round_half_even (inject_Z n) = n.
Proof.
  unfold round_half_even. rewrite Qfloor_Z.
  replace ((inject_Z n - inject_Z n ?= 1 # 2)%Q) with Lt; [reflexivity|].
  symmetry. apply Qlt_alt.
  setoid_replace (inject_Z n - inject_Z n)%Q with 0%Q by ring. reflexivity.
Qed.

Lemma rhe_compat (x y : Q) : (x == y)%Q -> round_half_even x = round_half_even y.
Proof.
  intro E. apply Z.le_antisymm; apply rhe_mono; rewrite E; apply Qle_refl.
Qed.

Lemma rhe_error (x : Q) :
  (inject_Z (round_half_even x) - x <= 1 # 2)%Q /\
  (x - inject_Z (round_half_even x) <= 1 # 2)%Q.
Proof.
  destruct (floor_bounds x) as [H1 H2].
  destruct (rhe_cases x) as [[E Hr]|[E Hr]]; rewrite E; cbv zeta in Hr.
  - split; lra.
  - rewrite inject_Z_plus. change (inject_Z 1) with 1%Q. split; lra.
Qed.

(** ** Powers of two and the binary logarithm *)
Lemma pow2_pos (e : Z) : (0 < pow2 e)%Q.
Proof. apply Qpower_0_lt. reflexivity. Qed.

Lemma pow2_add (a b : Z) : (pow2 (a + b) == pow2 a * pow2 b)%Q.
Proof. apply Qpower_plus. discriminate. Qed.

Lemma pow2_le (a b : Z) : a <= b -> (pow2 a <= pow2 b)%Q.
Proof. intro H. apply Qpower_le_compat_l; [exact H | discriminate]. Qed.

Lemma pow2_lt (a b : Z) : a < b -> (pow2 a < pow2 b)%Q.
Proof. intro H. apply Qpower_lt_compat_l; [exact H | reflexivity]. Qed.

Lemma pow2_lt_inv (a b : Z) : (pow2 a < pow2 b)%Q -> a < b.
Proof. intro H. apply (Qpower_lt_compat_l_inv 2); [exact H | reflexivity]. Qed.

Lemma pow2_Z (e : Z) : 0 <= e -> (pow2 e == inject_Z (2 ^ e))%Q.
Proof. intro H. unfold pow2. rewrite Zpower_Qpower by exact H. reflexivity. Qed.

Lemma pow2_div (a b : Z) : b <= a -> (pow2 a / pow2 b == inject_Z (2 ^ (a - b)))%Q.
Proof.
  intro H. rewrite <- pow2_Z by lia.
  replace a with ((a - b) + b) at 1 by lia. rewrite pow2_add.
  field. pose proof (pow2_pos b). lra.
Qed.

Lemma Z_bounds_pow2 (n : Z) :
  0 < n -> (pow2 (Z.log2 n) <= inject_Z n)%Q /\ (inject_Z n < pow2 (Z.log2 n + 1))%Q.
Proof.
  intro Hn. destruct (Z.log2_spec n Hn) as [H1 H2].
  pose proof (Z.log2_nonneg n) as H0.
  rewrite !pow2_Z by lia. rewrite <- Zle_Qle, <- Zlt_Qlt.
  split; [exact H1|]. replace (Z.log2 n + 1) with (Z.succ (Z.log2 n)) by lia. exact H2.
Qed.

Lemma ilog2_spec (x : Q) :
  (0 < x)%Q -> (pow2 (ilog2 x) <= x)%Q /\ (x < pow2 (ilog2 x + 1))%Q.
Proof.
  intro Hx. unfold ilog2.
  set (a := Z.log2 (Qnum x)). set (b := Z.log2 (Zpos (Qden x))).
  assert (Hn : 0 < Qnum x).
  { destruct x as [n d]. unfold Qlt in Hx. simpl in *. lia. }
  destruct (Z_bounds_pow2 (Qnum x) Hn) as [Ha1 Ha2]. fold a in Ha1, Ha2.
  destruct (Z_bounds_pow2 (Zpos (Qden x)) ltac:(lia)) as [Hb1 Hb2]. fold b in Hb1, Hb2.
  assert (Hxd : (x * inject_Z (Zpos (Qden x)) == inject_Z (Qnum x))%Q).
  { destruct x as [n d]. unfold Qeq, Qmult, inject_Z. simpl. lia. }
  set (D := inject_Z (Zpos (Qden x))) in *. set (N := inject_Z (Qnum x)) in *.
  assert (HD : (0 < D)%Q) by (pose proof (pow2_pos b); lra).
  assert (E1 : (pow2 (a + 1) == pow2 (a - b + 1) * pow2 b)%Q).
  { rewrite <- pow2_add. replace (a - b + 1 + b) with (a + 1) by lia. reflexivity. }
  assert (E2 : (pow2 a == pow2 (a - b - 1) * pow2 (b + 1))%Q).
  { rewrite <- pow2_add. replace (a - b - 1 + (b + 1)) with a by lia. reflexivity. }
  pose proof (pow2_pos (a - b + 1)) as P1. pose proof (pow2_pos (a - b - 1)) as P2.
  pose proof (pow2_pos b) as P3. pose proof (pow2_pos (b + 1)) as P4.
  assert (Hup : (x < pow2 (a - b + 1))%Q).
  { apply Qnot_le_lt. intro Hc.
    assert ((pow2 (a - b + 1) * pow2 b <= x * D)%Q).
    { apply Qle_trans with (pow2 (a - b + 1) * D)%Q.
      - apply Qmult_le_l; assumption.
      - apply Qmult_le_r; assumption. }
    lra. }
  assert (Hlo : (pow2 (a - b - 1) < x)%Q).
  { apply Qnot_le_lt. intro Hc.
    assert ((x * D <= pow2 (a - b - 1) * D)%Q) by (apply Qmult_le_r; assumption).
    assert ((pow2 (a - b - 1) * D < pow2 (a - b - 1) * pow2 (b + 1))%Q)
      by (apply Qmult_lt_l; assumption).
    lra. }
  destruct (Qle_bool (pow2 (a - b)) x) eqn:C.
  - apply Qle_bool_iff in C. split; assumption.
  - replace (a - b - 1 + 1) with (a - b) by lia.
    split; [apply Qlt_le_weak; exact Hlo|].
    apply Qnot_le_lt. intro Hc. apply Qle_bool_iff in Hc. congruence.
Qed.

Lemma ilog2_unique (x : Q) (e : Z) :
  (pow2 e <= x)%Q -> (x < pow2 (e + 1))%Q -> ilog2 x = e.
Proof.
  intros H1 H2.
  assert (Hx : (0 < x)%Q) by (pose proof (pow2_pos e); lra).
  destruct (ilog2_spec x Hx) as [S1 S2].
  assert (ilog2 x < e + 1) by (apply pow2_lt_inv; lra).
  assert (e < ilog2 x + 1) by (apply pow2_lt_inv; lra).
  lia.
Qed.

Lemma ilog2_mono (x y : Q) : (0 < x)%Q -> (x <= y)%Q -> ilog2 x <= ilog2 y.
Proof.
  intros Hx Hxy.
  destruct (ilog2_spec x Hx) as [S1 _].
  destruct (ilog2_spec y ltac:(lra)) as [_ T2].
  assert (ilog2 x < ilog2 y + 1) by (apply pow2_lt_inv; lra).
  lia.
Qed.

(** ** Rounding to a multiple of a positive step *)

Lemma div_le_pos (q x y : Q) : (0 < q)%Q -> (x <= y)%Q -> (x / q <= y / q)%Q.
Proof.
  intros Hq Hxy. unfold Qdiv. apply Qmult_le_compat_r; [exact Hxy|].
  apply Qlt_le_weak. apply Qinv_lt_0_compat. exact Hq.
Qed.

Lemma round_to_mono (q x y : Q) :
  (0 < q)%Q -> (x <= y)%Q -> (round_to q x <= round_to q y)%Q.
Proof.
  intros Hq Hxy. unfold round_to.
  apply Qmult_le_compat_r; [|apply Qlt_le_weak; exact Hq].
  rewrite <- Zle_Qle. apply rhe_mono. apply div_le_pos; assumption.
Qed.

Lemma round_to_exact (q x : Q) (n : Z) :
  (0 < q)%Q -> (x == inject_Z n * q)%Q -> (round_to q x == x)%Q.
Proof.
  intros Hq E. unfold round_to.
  rewrite (rhe_compat (x / q) (inject_Z n)).
  - rewrite rhe_Z. symmetry. exact E.
  - rewrite E. field. lra.
Qed.

Lemma round_to_error (q x : Q) :
  (0 < q)%Q ->
  (round_to q x - x <= q * (1 # 2))%Q /\ (x - round_to q x <= q * (1 # 2))%Q.
Proof.
  intro Hq. unfold round_to.
  destruct (rhe_error (x / q)) as [H1 H2].
  set (r := inject_Z (round_half_even (x / q))) in *.
  assert (Hx : (x == (x / q) * q)%Q) by (field; lra).
  set (s := (x / q)%Q) in *.
  split.
  - setoid_replace (r * q - x)%Q with ((r - s) * q)%Q by (rewrite Hx at 1; ring).
    rewrite (Qmult_comm q). apply Qmult_le_compat_r; lra.
  - setoid_replace (x - r * q)%Q with ((s - r) * q)%Q by (rewrite Hx at 1; ring).
    rewrite (Qmult_comm q). apply Qmult_le_compat_r; lra.
Qed.

Lemma b64_round_to (x : Q) : b64 x = round_to (pow2 (quantum_exp x)) x.
Proof. reflexivity. Qed.

Lemma quantum_exp_pos (x : Q) :
  (0 < x)%Q -> quantum_exp x = Z.max (ilog2 x - 52) (-1074).
Proof.
  intro Hx. unfold quantum_exp. f_equal. f_equal.
  destruct (ilog2_spec x Hx) as [S1 S2].
  apply ilog2_unique; rewrite Qabs_pos by lra; assumption.
Qed.

Lemma b64_mono_pos (x y : Q) : (0 < x)%Q -> (x <= y)%Q -> (b64 x <= b64 y)%Q.
Proof.
  intros Hx Hxy. assert (Hy : (0 < y)%Q) by lra.
  rewrite !b64_round_to.
  pose proof (quantum_exp_pos x Hx) as Ex. pose proof (quantum_exp_pos y Hy) as Ey.
  pose proof (ilog2_mono x y Hx Hxy) as Hl.
  destruct (ilog2_spec x Hx) as [_ Sx]. destruct (ilog2_spec y Hy) as [Sy _].
  set (ex := quantum_exp x) in *. set (ey := quantum_exp y) in *.
  destruct (Z.eq_dec ex ey) as [E|NE].
  - rewrite E. apply round_to_mono; [apply pow2_pos | exact Hxy].
  - assert (Hlt : ex < ey) by lia.
    assert (Eey : ey + 52 = ilog2 y) by lia.
    assert (Hll : ilog2 x + 1 <= ilog2 y) by lia.
    set (M := pow2 (ey + 52)).
    assert (HxM : (x <= M)%Q).
    { unfold M. rewrite Eey. pose proof (pow2_le _ _ Hll). lra. }
    assert (HMy : (M <= y)%Q) by (unfold M; rewrite Eey; exact Sy).
    assert (Mx : (M == inject_Z (2 ^ (ey + 52 - ex)) * pow2 ex)%Q).
    { unfold M. rewrite <- pow2_div by lia. field. pose proof (pow2_pos ex). lra. }
    assert (My : (M == inject_Z (2 ^ (ey + 52 - ey)) * pow2 ey)%Q).
    { unfold M. rewrite <- pow2_div by lia. field. pose proof (pow2_pos ey). lra. }
    apply Qle_trans with M.
    + rewrite <- (round_to_exact (pow2 ex) M _ (pow2_pos ex) Mx).
      apply round_to_mono; [apply pow2_pos | exact HxM].
    + rewrite <- (round_to_exact (pow2 ey) M _ (pow2_pos ey) My) at 1.
      apply round_to_mono; [apply pow2_pos | exact HMy].
Qed.

Lemma floor_unique (x : Q) (z : Z) :
  (inject_Z z <= x)%Q -> (x < inject_Z z + 1)%Q -> Qfloor x = z.
Proof.
  intros H1 H2. destruct (floor_bounds x) as [F1 F2].
  assert (A : (inject_Z z < inject_Z (Qfloor x + 1))%Q)
    by (rewrite inject_Z_plus; change (inject_Z 1) with 1%Q; lra).
  assert (B : (inject_Z (Qfloor x) < inject_Z (z + 1))%Q)
    by (rewrite inject_Z_plus; change (inject_Z 1) with 1%Q; lra).
  rewrite <- Zlt_Qlt in A, B. lia.
Qed.

Lemma rhe_opp (x : Q) : round_half_even (- x) = - round_half_even x.
Proof.
  destruct (floor_bounds x) as [F1 F2].
  set (f := Qfloor x) in *.
  destruct (Qeq_dec x (inject_Z f)) as [E|NE].
  - rewrite (rhe_compat x (inject_Z f) E).
    rewrite (rhe_compat (- x) (inject_Z (- f))).
    + rewrite !rhe_Z. reflexivity.
    + rewrite E, inject_Z_opp. reflexivity.
  - assert (Hlt : (inject_Z f < x)%Q).
    { apply Qnot_le_lt. intro Hc. apply NE. apply Qle_antisym; assumption. }
    assert (Ei : (inject_Z (- f - 1) == - inject_Z f - 1)%Q).
    { unfold Z.sub. rewrite inject_Z_plus, inject_Z_opp. reflexivity. }
    assert (Ef : Qfloor (- x) = - f - 1).
    { apply floor_unique; rewrite Ei; lra. }
    assert (Ev : Z.even (- f - 1) = negb (Z.even f)).
    { rewrite Z.even_sub, Z.even_opp. simpl. destruct (Z.even f); reflexivity. }
    unfold round_half_even. rewrite Ef, Ev. fold f.
    destruct (Qcompare_spec (- x - inject_Z (- f - 1)) (1 # 2)) as [C1|C1|C1];
      destruct (Qcompare_spec (x - inject_Z f) (1 # 2)) as [C2|C2|C2];
      rewrite Ei in C1; try (exfalso; lra); try lia.
    destruct (Z.even f); simpl; lia.
Qed.

Lemma quantum_exp_opp (x : Q) : quantum_exp (- x) = quantum_exp x.
Proof.
  unfold quantum_exp. f_equal. f_equal. f_equal.
  destruct x as [n d]. unfold Qabs, Qopp. simpl. rewrite Z.abs_opp. reflexivity.
Qed.

Lemma b64_opp (x : Q) : (b64 (- x) == - b64 x)%Q.
Proof.
  unfold b64. cbv zeta. rewrite quantum_exp_opp.
  set (q := pow2 (quantum_exp x)).
  assert (Hq : (0 < q)%Q) by apply pow2_pos.
  rewrite (rhe_compat (- x / q) (- (x / q))) by (field; lra).
  rewrite rhe_opp, inject_Z_opp. ring.
Qed.

Lemma b64_nonneg (x : Q) : (0 <= x)%Q -> (0 <= b64 x)%Q.
Proof.
  intro Hx. unfold b64. cbv zeta.
  set (q := pow2 (quantum_exp x)).
  assert (Hq : (0 < q)%Q) by apply pow2_pos.
  apply Qmult_le_0_compat; [|lra].
  change 0%Q with (inject_Z 0). rewrite <- Zle_Qle.
  rewrite <- (rhe_Z 0). apply rhe_mono.
  change (inject_Z 0) with (0 / q)%Q at 1 || idtac.
  apply Qle_shift_div_l; [exact Hq|]. change (inject_Z 0) with 0%Q. lra.
Qed.

Lemma b64_nonpos (x : Q) : (x <= 0)%Q -> (b64 x <= 0)%Q.
Proof.
  intro Hx. pose proof (b64_nonneg (- x) ltac:(lra)) as H.
  rewrite b64_opp in H. lra.
Qed.

(** Rounding to binary64 is monotone. *)
Lemma b64_mono (x y : Q) : (x <= y)%Q -> (b64 x <= b64 y)%Q.
Proof.
  intro Hxy.
  destruct (Qlt_le_dec 0 x) as [Hx|Hx].
  - apply b64_mono_pos; assumption.
  - destruct (Qlt_le_dec y 0) as [Hy|Hy].
    + pose proof (b64_mono_pos (- y) (- x) ltac:(lra) ltac:(lra)) as H.
      rewrite !b64_opp in H. lra.
    + pose proof (b64_nonpos x Hx). pose proof (b64_nonneg y Hy). lra.
Qed.

Lemma b64_compat (x y : Q) : (x == y)%Q -> (b64 x == b64 y)%Q.
Proof.
  intro E. apply Qle_antisym; apply b64_mono; rewrite E; apply Qle_refl.
Qed.

Lemma b64_pow2 (k : Z) : -1074 <= k -> (b64 (pow2 k) == pow2 k)%Q.
Proof.
  intro Hk. rewrite b64_round_to.
  rewrite (quantum_exp_pos (pow2 k) (pow2_pos k)).
  assert (El : ilog2 (pow2 k) = k).
  { apply ilog2_unique; [apply Qle_refl | apply pow2_lt; lia]. }
  rewrite El. set (e := Z.max (k - 52) (-1074)).
  apply (round_to_exact (pow2 e) (pow2 k) (2 ^ (k - e)) (pow2_pos e)).
  rewrite <- pow2_div by lia. field. pose proof (pow2_pos e). lra.
Qed.

Lemma b64_error_pos (x : Q) (k : Z) :
  -1021 <= k -> (0 <= x)%Q -> (x <= pow2 k)%Q ->
  (b64 x - x <= pow2 (k - 54))%Q /\ (x - b64 x <= pow2 (k - 54))%Q.
Proof.
  intros Hk H0 H1. pose proof (pow2_pos (k - 54)) as Hp.
  destruct (Qeq_dec x 0) as [E0|N0].
  { assert (E : (b64 x == 0)%Q).
    { rewrite (b64_compat x 0 E0). vm_compute. reflexivity. }
    rewrite E, E0. split; lra. }
  destruct (Qeq_dec x (pow2 k)) as [E1|N1].
  { assert (E : (b64 x == x)%Q).
    { rewrite (b64_compat x (pow2 k) E1), E1. apply b64_pow2. lia. }
    rewrite E. split; lra. }
  assert (Hx : (0 < x)%Q).
  { apply Qnot_le_lt. intro Hc. apply N0. apply Qle_antisym; assumption. }
  assert (Hx1 : (x < pow2 k)%Q).
  { apply Qnot_le_lt. intro Hc. apply N1. apply Qle_antisym; assumption. }
  destruct (ilog2_spec x Hx) as [S1 _].
  assert (Hl : ilog2 x < k) by (apply pow2_lt_inv; lra).
  rewrite b64_round_to. pose proof (quantum_exp_pos x Hx) as Ex.
  set (e := quantum_exp x) in *.
  destruct (round_to_error (pow2 e) x (pow2_pos e)) as [R1 R2].
  assert (Hq : (pow2 e * (1 # 2) <= pow2 (k - 54))%Q).
  { setoid_replace (pow2 (k - 54)) with (pow2 (k - 53) * (1 # 2))%Q.
    - apply Qmult_le_compat_r; [|discriminate]. apply pow2_le. lia.
    - replace (k - 54) with ((k - 53) + -1) by lia. rewrite pow2_add. reflexivity. }
  split; lra.
Qed.

Lemma b64_error (x : Q) (k : Z) :
  -1021 <= k -> (- pow2 k <= x)%Q -> (x <= pow2 k)%Q ->
  (b64 x - x <= pow2 (k - 54))%Q /\ (x - b64 x <= pow2 (k - 54))%Q.
Proof.
  intros Hk H0 H1.
  destruct (Qlt_le_dec x 0) as [Hx|Hx].
  - destruct (b64_error_pos (- x) k Hk ltac:(lra) ltac:(lra)) as [A B].
    rewrite b64_opp in A, B. split; lra.
  - apply b64_error_pos; assumption.
Qed.

(** ** The payoff in binary64 *)

Lemma pnl_of_b64_mono (F p1 p2 : Q) (w : bool) :
  (p1 <= p2)%Q -> (pnl_of_b64 F w p2 <= pnl_of_b64 F w p1)%Q.
Proof.
  intro H. unfold pnl_of_b64, fsub, fadd. destruct w.
  - apply b64_mono. assert ((b64 (1 - p2) <= b64 (1 - p1))%Q) by (apply b64_mono; lra). lra.
  - assert ((b64 (p1 + F) <= b64 (p2 + F))%Q) by (apply b64_mono; lra). lra.
Qed.


(** On prices and fees in [0, 1] the payoff the program computes is within
    [2^-53] of the exact payoff. *)
Lemma pnl_of_b64_near_pnl_of (F p : Q) (w : bool) :
  (0 <= F)%Q -> (F <= 1)%Q -> (0 <= p)%Q -> (p <= 1)%Q ->
  (pnl_of_b64 F w p - pnl_of F w p <= pow2 (-53))%Q /\
  (pnl_of F w p - pnl_of_b64 F w p <= pow2 (-53))%Q.
Proof.
  intros HF0 HF1 Hp0 Hp1. unfold pnl_of_b64, pnl_of, fsub, fadd.
  assert (E54 : (pow2 (0 - 54) + pow2 (0 - 54) == pow2 (-53))%Q) by reflexivity.
  assert (E1 : (pow2 0 == 1)%Q) by reflexivity.
  assert (E2 : (pow2 1 == 2)%Q) by reflexivity.
  destruct w.
  - destruct (b64_error (1 - p) 0 ltac:(lia) ltac:(lra) ltac:(lra)) as [A1 A2].
    assert (B0 : (0 <= b64 (1 - p))%Q) by (apply b64_nonneg; lra).
    assert (B1 : (b64 (1 - p) <= 1)%Q).
    { setoid_replace 1%Q with (b64 1) at 2 by (vm_compute; reflexivity).
      apply b64_mono. lra. }
    destruct (b64_error (b64 (1 - p) - F) 0 ltac:(lia) ltac:(lra) ltac:(lra)) as [C1 C2].
    split; lra.
  - destruct (b64_error (p + F) 1 ltac:(lia) ltac:(lra) ltac:(lra)) as [A1 A2].
    change (pow2 (1 - 54)) with (pow2 (-53)) in A1, A2. split; lra.
Qed.

(** Entered at or above the float [1 - FEE], a win pays at most the rounding
    residue [2^-53]. *)
Lemma breakeven_bound (F p : Q) :
  (0 <= F)%Q -> (F <= 1)%Q -> (fsub 1 F <= p)%Q ->
  (pnl_of_b64 F true p <= pow2 (-53))%Q.
Proof.
  intros HF0 HF1 Hp.
  apply Qle_trans with (pnl_of_b64 F true (fsub 1 F)); [apply pnl_of_b64_mono; exact Hp|].
  unfold pnl_of_b64, fsub.
  assert (E54 : (pow2 (0 - 54) + pow2 (0 - 54) == pow2 (-53))%Q) by reflexivity.
  assert (E1 : (pow2 0 == 1)%Q) by reflexivity.
  destruct (b64_error (1 - F) 0 ltac:(lia) ltac:(lra) ltac:(lra)) as [A1 A2].
  assert (B0 : (0 <= b64 (1 - F))%Q) by (apply b64_nonneg; lra).
  assert (B1 : (b64 (1 - F) <= 1)%Q).
  { setoid_replace 1%Q with (b64 1) at 2 by (vm_compute; reflexivity).
    apply b64_mono. lra. }
  destruct (b64_error (1 - b64 (1 - F)) 0 ltac:(lia) ltac:(lra) ltac:(lra)) as [C1 C2].
  rewrite <- (b64_pow2 (-53)) by lia.
  apply b64_mono. lra.
Qed.

(** With a price in [0, 1] and a fee that is at most the greatest float, no
    operation of the payoff overflows: the intermediate results and the
    payoff stay within the finite floats, where [b64] is the rounding of the
    hardware. *)
Lemma pnl_of_b64_finite (F p : Q) (w : bool) :
  (0 <= F)%Q -> (F <= max_b64)%Q -> (0 <= p)%Q -> (p <= 1)%Q ->
  (0 <= fsub 1 p <= 1)%Q /\
  (0 <= fadd p F <= max_b64)%Q /\
  (- max_b64 <= pnl_of_b64 F w p <= max_b64)%Q.
Proof.
  intros HF0 HF1 Hp0 Hp1.
  assert (E1 : (b64 1 == 1)%Q) by (vm_compute; reflexivity).
  assert (Em : (b64 (1 + max_b64) == max_b64)%Q) by (vm_compute; reflexivity).
  assert (En : (b64 (- max_b64) == - max_b64)%Q) by (vm_compute; reflexivity).
  assert (Hm : (1 <= max_b64)%Q) by (vm_compute; discriminate).
  set (M := max_b64) in *. clearbody M.
  assert (A : (0 <= fsub 1 p <= 1)%Q).
  { unfold fsub. split; [apply b64_nonneg; lra|].
    pose proof (b64_mono (1 - p) 1 ltac:(lra)). lra. }
  assert (B : (0 <= fadd p F <= M)%Q).
  { unfold fadd. split; [apply b64_nonneg; lra|].
    pose proof (b64_mono (p + F) (1 + M) ltac:(lra)). lra. }
  split; [exact A|]. split; [exact B|].
  unfold pnl_of_b64. destruct w.
  - unfold fsub in *. split.
    + pose proof (b64_mono (- M) (b64 (1 - p) - F) ltac:(lra)). lra.
    + pose proof (b64_mono (b64 (1 - p) - F) 1 ltac:(lra)). lra.
  - lra.
Qed.

Lemma py_round_mono (x y : Q) (n : nat) :
  (x <= y)%Q -> (py_round x n <= py_round y n)%Q.
Proof.
  intro Hxy. unfold py_round.
  pose proof (scale_pos n) as Hs.
  set (s := inject_Z (10 ^ Z.of_nat n)) in *.
  apply div_le_pos; [exact Hs|].
  rewrite <- Zle_Qle. apply rhe_mono.
  apply Qmult_le_compat_r; [exact Hxy | apply Qlt_le_weak; exact Hs].
Qed.

(** The record of a payoff that is at most the rounding residue is at most
    0: [round(x, 4)] of such a payoff is 0 or negative. *)
Lemma py_round_b64_residue (x : Q) :
  (x <= pow2 (-53))%Q -> (py_round_b64 x 4 <= 0)%Q.
Proof.
  intro Hx. unfold py_round_b64. apply b64_nonpos.
  apply Qle_trans with (py_round (pow2 (-53)) 4).
  - apply py_round_mono. exact Hx.
  - vm_compute. discriminate.
Qed.


(** C10, amended: for a fee in [0, 1], a trade on the resolved winner entered
    at a price at or above the float [1 - FEE] is recorded with [won = true];
    its payoff, computed in binary64, is at most the rounding residue
    [2^-53] (it can be positive), and its recorded PnL [round(pnl, 4)] is at
    most 0.  The summary counts wins by [pnl > 0] on the record, so it does
    not count this trade: adding it to any trade list leaves the win count
    unchanged, and a run whose only trade it is reports one trade, no win,
    and one record with [won = true]. *)
Theorem breakeven_win_is_not_counted
        (F : Q) (slug : string) (tr : Trigger) (winner : option string) (end_ts : Z)
        (HF0 : (0 <= F)%Q) (HF1 : (F <= 1)%Q)
        (Hp : (fsub 1 F <= price tr)%Q) (Hw : winner = Some (side tr)) :
  let t := make_trade_b64 F slug tr winner end_ts in
  trade_won t = true /\
  (pnl_of_b64 F true (price tr) <= pow2 (-53))%Q /\
  trade_pnl t = py_round_b64 (pnl_of_b64 F true (price tr)) 4 /\
  (trade_pnl t <= 0)%Q /\
  is_win t = false /\
  (forall st : State,
      List.length (filter is_win (trades (append_trade st t))) =
      List.length (filter is_win (trades st))) /\
  (forall n_closed : nat,
      exists r, summary n_closed (append_trade init t) = Ok r /\
                n_trades r = 1%nat /\ n_wins r = O /\
                List.length (filter trade_won (report_trades r)) = 1%nat).
Proof.
  intro t.
  assert (Hwon : won_of tr winner = true) by (apply won_of_iff; exact Hw).
  assert (Hbound : (pnl_of_b64 F true (price tr) <= pow2 (-53))%Q)
    by (apply breakeven_bound; assumption).
  assert (Hpnl : trade_pnl t = py_round_b64 (pnl_of_b64 F true (price tr)) 4).
  { unfold t. cbn [make_trade_b64 trade_pnl]. rewrite Hwon. reflexivity. }
  assert (Hrec : (trade_pnl t <= 0)%Q).
  { rewrite Hpnl. apply py_round_b64_residue. exact Hbound. }
  assert (Hnot : is_win t = false) by (apply is_win_false_iff; exact Hrec).
  assert (Hflag : trade_won t = true) by (unfold t; exact Hwon).
  clearbody t.
  repeat split; try assumption.
  - intro st. simpl. rewrite filter_app. simpl. rewrite Hnot.
    rewrite app_nil_r. reflexivity.
  - intro n_closed. eexists. split; [apply summary_ok|].
    simpl. rewrite Hnot, Hflag. repeat split; reflexivity.
Qed.

(** * The binary64 payoff on the example data *)

(** The model agrees with the hardware floats on the values used below. *)
Example b64_agrees_with_hardware :
  same_value (double 2 100) fee_002 = true /\
  same_value (double 98 100) price_098 = true /\
  same_value (PrimFloat.sub (double 1 1) (double 2 100))
             (fsub 1 fee_002) = true /\
  same_value (PrimFloat.sub
                (PrimFloat.sub (double 1 1) (double 98 100))
                (double 2 100))
             (pnl_of_b64 fee_002 true price_098) = true /\
  same_value (PrimFloat.opp (PrimFloat.add (double 98 100) (double 2 100)))
             (pnl_of_b64 fee_002 false price_098) = true /\
  same_value (PrimFloat.next_up (double 98 100)) price_098_next = true /\
  same_value (PrimFloat.opp (PrimFloat.add (PrimFloat.next_up (double 98 100))
                                           (double 2 100)))
             (pnl_of_b64 fee_002 false price_098_next) = true /\
  same_value (PrimFloat.div (double 1 1)
                            (PrimFloat.mul (double 10000000000 1)
                                           (double 10000000000 1)))
             price_tiny = true /\
  same_value (PrimFloat.sub
                (PrimFloat.sub (double 1 1)
                               (PrimFloat.div (double 1 1)
                                              (PrimFloat.mul (double 10000000000 1)
                                                             (double 10000000000 1))))
                (double 2 100))
             (pnl_of_b64 fee_002 true price_tiny) = true.
Proof. vm_compute. repeat split. Qed.



Lemma breakeven_win_is_not_counted_witness :
  trade_won (make_trade_b64 fee_002 "m"%string trigger_098
                            (Some "Up"%string) 1704068100) = true /\
  is_win (make_trade_b64 fee_002 "m"%string trigger_098
                         (Some "Up"%string) 1704068100) = false.
Proof.
  assert (HF0 : (0 <= fee_002)%Q) by (vm_compute; discriminate).
  assert (HF1 : (fee_002 <= 1)%Q) by (vm_compute; discriminate).
  assert (Hp : (fsub 1 fee_002 <= price trigger_098)%Q)
    by (vm_compute; discriminate).
  pose proof (breakeven_win_is_not_counted
                fee_002 "m"%string trigger_098 (Some "Up"%string)
                1704068100 HF0 HF1 Hp eq_refl) as H.
  cbv zeta in H. destruct H as [Hw [_ [_ [_ [Hn _]]]]].
  split; assumption.
Defined.

(** C10, as written, fails on the payoff the program computes: with the fee
    0.02 the price 0.98 is at or above the float [1 - 0.02], and the winning
    payoff [1 - 0.98 - 0.02] is [5 * 2^-58], above 0. *)
Lemma breakeven_pnl_can_be_positive :
  is_b64 price_098 /\
  (fsub 1 fee_002 <= price_098)%Q /\
  (pnl_of_b64 fee_002 true price_098 == inject_Z 5 * pow2 (-58))%Q /\
  (0 < pnl_of_b64 fee_002 true price_098)%Q /\
  ~ breakeven_pnl_nonpositive fee_002.
Proof.
  assert (A : is_b64 price_098) by (vm_compute; reflexivity).
  assert (B : (fsub 1 fee_002 <= price_098)%Q) by (vm_compute; discriminate).
  split; [exact A|]. split; [exact B|].
  split; [vm_compute; reflexivity|].
  split; [vm_compute; reflexivity|].
  intro H. specialize (H price_098 A B).
  revert H. vm_compute. intro H. apply H. reflexivity.
Qed.
